(** * DNS name codec and message framer (effect-dns-resolver)

    A shallow embedding of [src/name.ts] (label grammar, the [Name] schema,
    the standalone and the packet-aware name decoders, the name encoder) and
    of the message framer, together with the properties of the wire-format
    specification that concern them.

    Conventions.
    - A JavaScript [number] holding an integer is a [Z]; a [Uint8Array] is the
      list of its elements, each a [byte]; [u8] is the number an element
      reads as and [toUint8] the element a number is stored as.
    - An [unknown] value that is either a number or [undefined] is an
      [option Z].
    - [Either] is Effect's [Either]: [Left] carries the parse issue, [Right]
      the value.  A [yield*] of a failing effect is the [Left] branch of
      [bind].
    - A [while (true)] loop is a step function run by [while_loop] under a
      fuel bound; [None] means the fuel ran out.  Each decoder supplies a
      bound computed from its input, and is proved never to exhaust it. *)

From Stdlib Require Import ZArith List Bool Lia.
From Stdlib Require Import Strings.Byte.
Import ListNotations.
Local Open Scope Z_scope.

Set Implicit Arguments.

(** ** Typed arrays *)

Module Uint8.

Definition Uint8Array := list byte.

(** The number an element reads as. *)
Definition u8 (b : byte) : Z := Z.of_N (Byte.to_N b).

(** The element a number is stored as: its value modulo 256. *)
Definition toUint8 (v : Z) : byte :=
  match Byte.of_N (Z.to_N (v mod 256)) with
  | Some b => b
  | None => x00
  end.

Definition ofList (l : list Z) : Uint8Array := map toUint8 l.

Definition byteLength (u : Uint8Array) : Z := Z.of_nat (length u).

(** A relative index as [subarray] and [at] resolve it: negative indices count
    from the end, and the result is clamped to the array. *)
Definition relativeIndex (len k : Z) : Z :=
  if k <? 0 then Z.max (len + k) 0 else Z.min k len.

(** [Uint8Array.prototype.subarray(begin, end)]. *)
Definition subarray (u : Uint8Array) (begin end_ : Z) : Uint8Array :=
  let b := relativeIndex (byteLength u) begin in
  let e := relativeIndex (byteLength u) end_ in
  firstn (Z.to_nat (e - b)) (skipn (Z.to_nat b) u).

(** [Uint8Array.prototype.at(idx)]; [None] is [undefined]. *)
Definition at_ (u : Uint8Array) (idx : Z) : option Z :=
  let k := if idx <? 0 then byteLength u + idx else idx in
  if (k <? 0) || (byteLength u <=? k) then None
  else option_map u8 (nth_error u (Z.to_nat k)).

(** [new Uint8Array(new ArrayBuffer(n))]: [n] zero bytes. *)
Definition alloc (n : Z) : Uint8Array := repeat x00 (Z.to_nat n).

End Uint8.
Export Uint8.

(** ** Parse issues *)

(** The message a [Label] filter returns. *)
Inductive LabelIssue : Type :=
| LabelLength (received : Z)
| LabelCharacter (byte : option Z)
| LabelStartsWithHyphen
| LabelEndsWithHyphen
| LabelDoubleHyphen.

(** The [ParseResult.Type] issues of the codec, by kind. *)
Inductive ParseIssue : Type :=
| BufferTooShort (received : Z)
| BufferUnderrun (offset : Z)
| LabelOverrun (offset : Z)
| InvalidLabel (why : LabelIssue)
| NameTooLong
| RecursivePointer
| EmptyName
| InvalidName (bytes : Z)
| InvalidEncodedByteLength (received : Z)
| NotSupported.

Inductive Either (E A : Type) : Type :=
| Left (e : E)
| Right (a : A).
Arguments Left {E A} e.
Arguments Right {E A} a.

Definition bind {E A B} (r : Either E A) (k : A -> Either E B) : Either E B :=
  match r with
  | Left e => Left e
  | Right a => k a
  end.

Notation "x <- r ;; k" := (bind r (fun x => k))
  (at level 61, r at next level, right associativity).

Definition ParseResult := Either ParseIssue.

(** ** [./utils] *)

Module Utils.

(** A [DataView] over the bytes of a typed array:
    [new DataView(u.buffer, u.byteOffset, u.byteLength)] sees exactly the
    elements of [u]. *)
Definition DataView := list byte.

Definition viewOf (u : Uint8Array) : DataView := u.

(** Modelled from the spec: [getUint8] of [./utils], which is not among the
    sources.  A bounds-checked read of one byte that fails with
    [BufferUnderrun] rather than reading past the end of the view. *)
Definition getUint8 (dataView : DataView) (offset : Z) : ParseResult Z :=
  if (0 <=? offset) && (offset <? byteLength dataView) then
    Right (u8 (nth (Z.to_nat offset) dataView x00))
  else Left (BufferUnderrun offset).

(** Modelled from the spec: [getUint16] of [./utils], which is not among the
    sources.  A bounds-checked big-endian read of two bytes. *)
Definition getUint16 (dataView : DataView) (offset : Z) : ParseResult Z :=
  hi <- getUint8 dataView offset ;;
  lo <- getUint8 dataView (offset + 1) ;;
  Right (hi * 256 + lo).

(** Modelled from the spec: [setUint8] of [./utils], which is not among the
    sources.  A bounds-checked write of one byte; the stored value is the
    argument modulo 256, as [DataView.prototype.setUint8] stores it. *)
Definition setUint8 (buffer : Uint8Array) (offset value : Z)
  : ParseResult Uint8Array :=
  if (0 <=? offset) && (offset <? byteLength buffer) then
    Right (firstn (Z.to_nat offset) buffer
             ++ [toUint8 value]
             ++ skipn (Z.to_nat offset + 1) buffer)
  else Left (BufferUnderrun offset).

(** Modelled from the spec: [uint8ArraySet] of [./utils], which is not among
    the sources.  [out.set(source, offset)], failing when the source does not
    fit. *)
Definition uint8ArraySet (out source : Uint8Array) (offset : Z)
  : ParseResult Uint8Array :=
  if (0 <=? offset) && (offset + byteLength source <=? byteLength out) then
    Right (firstn (Z.to_nat offset) out
             ++ source
             ++ skipn (Z.to_nat offset + length source) out)
  else Left (BufferUnderrun offset).

End Utils.
Export Utils.

(** ** Label *)

Definition between (lo hi v : Z) : bool := (lo <=? v) && (v <=? hi).

Definition Digit := between 48 57.
Definition UppercaseAsciiAlphabet := between 65 90.
Definition LowercaseAsciiAlphabet := between 97 122.
Definition AsciiHyphen (v : Z) : bool := v =? 45.

Definition isHypen (value : option Z) : bool :=
  match value with
  | Some v => AsciiHyphen v
  | None => false
  end.

Definition isValidLabelCharacter (value : option Z) : bool :=
  match value with
  | Some v =>
      Digit v || UppercaseAsciiAlphabet v || LowercaseAsciiAlphabet v
      || AsciiHyphen v
  | None => false
  end.

Definition Label := Uint8Array.

(** [value ?? 0]. *)
Definition orZero (value : option Z) : Z :=
  match value with
  | Some v => v
  | None => 0
  end.

(** The body of the [for] loop of the [Label] filter at index [idx]:
    [Some] is the returned message, [None] falls through to the next index. *)
Definition Label_body (uint8Array : Uint8Array) (idx : Z) : option LabelIssue :=
  let byte := at_ uint8Array idx in
  let previousByte := if idx >? 0 then at_ uint8Array (idx - 1) else None in
  if negb (isValidLabelCharacter byte) then Some (LabelCharacter byte)
  else if (idx =? 0) && isHypen byte then Some LabelStartsWithHyphen
  else if (idx =? byteLength uint8Array - 1) && isHypen byte
       then Some LabelEndsWithHyphen
  else if isHypen previousByte && isHypen byte && (idx =? 3) then
    let firstByte := orZero (at_ uint8Array 0) in
    let secondByte := orZero (at_ uint8Array 1) in
    let isInternationalDomain := (firstByte =? 120) && (secondByte =? 110) in
    if negb isInternationalDomain then Some LabelDoubleHyphen else None
  else None.

(** [for (let idx = ...; idx < uint8Array.byteLength; idx++)], with [n] the
    number of iterations left. *)
Fixpoint Label_for (uint8Array : Uint8Array) (n : nat) (idx : Z)
  : option LabelIssue :=
  match n with
  | O => None
  | S n' =>
      match Label_body uint8Array idx with
      | Some issue => Some issue
      | None => Label_for uint8Array n' (idx + 1)
      end
  end.

Definition Label_filter (uint8Array : Uint8Array) : option LabelIssue :=
  if (byteLength uint8Array =? 0) || (byteLength uint8Array >? 63)
  then Some (LabelLength (byteLength uint8Array))
  else Label_for uint8Array (length uint8Array) 0.

Definition decodeLabel (uint8Array : Uint8Array) : ParseResult Label :=
  match Label_filter uint8Array with
  | Some issue => Left (InvalidLabel issue)
  | None => Right uint8Array
  end.

Definition encodeLabelFromUnknown (label : Label) : ParseResult Uint8Array :=
  match Label_filter label with
  | Some issue => Left (InvalidLabel issue)
  | None => Right label
  end.

(** ** Name *)

Record Name : Type := mkName {
  labels : list Label;
  encodedByteLength : Z
}.

(** The filter on [labels]: one length byte per label, the label bytes, and
    one more for the terminator. *)
Definition Name_labels_filter (ls : list Label) : option ParseIssue :=
  let bytes :=
    fold_left (fun bytes l => bytes + byteLength l) ls (Z.of_nat (length ls)) in
  if bytes =? 0 then Some (InvalidName bytes)
  else if bytes + 1 >? 255 then Some (InvalidName (bytes + 1))
  else None.

(** [Schema.Array(Label)]: the first label that is not a [Label] is the
    issue. *)
Fixpoint Name_labels_each (ls : list Label) : option ParseIssue :=
  match ls with
  | [] => None
  | l :: ls' =>
      match Label_filter l with
      | Some issue => Some (InvalidLabel issue)
      | None => Name_labels_each ls'
      end
  end.

(** Validation against the [Name] struct, as [Schema.transformOrFail] applies
    it to the result of [decode] and to the argument of [encode]. *)
Definition Name_validate (n : Name) : ParseResult Name :=
  match Name_labels_each (labels n) with
  | Some issue => Left issue
  | None =>
      match Name_labels_filter (labels n) with
      | Some issue => Left issue
      | None =>
          if between 1 255 (encodedByteLength n) then Right n
          else Left (InvalidEncodedByteLength (encodedByteLength n))
      end
  end.

(** ** Loops *)

Inductive Step (S R : Type) : Type :=
| Continue (s : S)
| Break (r : R)
| Fail (e : ParseIssue).
Arguments Continue {S R} s.
Arguments Break {S R} r.
Arguments Fail {S R} e.

(** [while (true) { body }]: [None] when the fuel is exhausted. *)
Fixpoint while_loop {S R} (body : S -> Step S R) (fuel : nat) (s : S)
  : option (ParseResult R) :=
  match fuel with
  | O => None
  | Datatypes.S fuel' =>
      match body s with
      | Continue s' => while_loop body fuel' s'
      | Break r => Some (Right r)
      | Fail e => Some (Left e)
      end
  end.

(** A loop that yields a value, followed by the rest of the generator. *)
Definition andThen {A B} (r : option (ParseResult A)) (k : A -> ParseResult B)
  : option (ParseResult B) :=
  match r with
  | None => None
  | Some (Left e) => Some (Left e)
  | Some (Right a) => Some (k a)
  end.

(** ** [NameFromUint8Array]: the standalone decoder and the encoder *)

Module NameFromUint8Array.

(** The variables of [decode] that the loop updates. *)
Record State : Type := mkState {
  st_labels : list Label;
  st_offset : Z;
  st_nameSize : Z
}.

Definition init : State :=
  {| st_labels := []; st_offset := 0; st_nameSize := 0 |}.

(** One iteration of the [while (true)] of [decode]. *)
Definition body (uint8Array : Uint8Array) (dataView : DataView) (s : State)
  : Step State State :=
  match getUint8 dataView (st_offset s) with
  | Left issue => Fail issue
  | Right length =>
      if length =? 0 then Break s
      else if st_offset s + 1 + length >? byteLength uint8Array
      then Fail (LabelOverrun (st_offset s))
      else
        match decodeLabel
                (subarray uint8Array (st_offset s + 1)
                   (st_offset s + 1 + length)) with
        | Left issue => Fail issue
        | Right label =>
            let nameSize := st_nameSize s + byteLength label in
            if nameSize >? 255 then Fail NameTooLong
            else Continue {| st_labels := st_labels s ++ [label];
                             st_offset := st_offset s + (length + 1);
                             st_nameSize := nameSize |}
        end
  end.

(** The loop never takes more iterations than the buffer has bytes, plus the
    one that ends it. *)
Definition fuel (uint8Array : Uint8Array) : nat := S (length uint8Array).

Definition decode (uint8Array : Uint8Array) : option (ParseResult Name) :=
  if byteLength uint8Array <? 2
  then Some (Left (BufferTooShort (byteLength uint8Array)))
  else
    andThen
      (while_loop (body uint8Array (viewOf uint8Array)) (fuel uint8Array) init)
      (fun s => Right {| labels := st_labels s;
                         encodedByteLength := st_offset s |}).

(** The first [for] loop of [encode]: validates each label and accumulates
    [nameSize]. *)
Fixpoint encode_size (ls : list Label) (nameSize : Z) : ParseResult Z :=
  match ls with
  | [] => Right nameSize
  | l :: ls' =>
      label <- encodeLabelFromUnknown l ;;
      let nameSize := nameSize + byteLength label in
      if nameSize >? 255 then Left NameTooLong
      else encode_size ls' nameSize
  end.

(** The second [for] loop of [encode].  [out] and [dataView] are two views of
    the one [ArrayBuffer], so both writes go to the same store. *)
Fixpoint encode_write (ls : list Label) (out : Uint8Array) (writeOffset : Z)
  : ParseResult (Uint8Array * Z) :=
  match ls with
  | [] => Right (out, writeOffset)
  | label :: ls' =>
      out1 <- setUint8 out writeOffset (byteLength label) ;;
      let writeOffset := writeOffset + 1 in
      out2 <- uint8ArraySet out1 label writeOffset ;;
      encode_write ls' out2 (writeOffset + byteLength label)
  end.

Definition encode (name : Name) : ParseResult Uint8Array :=
  if Z.of_nat (length (labels name)) =? 0 then Left EmptyName
  else
    nameSize <- encode_size (labels name)
                  (Z.of_nat (length (labels name)) + 1) ;;
    r <- encode_write (labels name) (alloc nameSize) 0 ;;
    setUint8 (fst r) (snd r) 0.

End NameFromUint8Array.

(** [Schema.decode(NameFromUint8Array)]: the transformation, then validation
    of its result against [Name]. *)
Definition decodeNameFromUint8Array (uint8Array : Uint8Array)
  : option (ParseResult Name) :=
  andThen (NameFromUint8Array.decode uint8Array) Name_validate.

(** [Schema.encode(NameFromUint8Array)]: validation of the argument against
    [Name], then the transformation. *)
Definition encodeNameFromUint8Array (name : Name) : ParseResult Uint8Array :=
  n <- Name_validate name ;;
  NameFromUint8Array.encode n.

(** ** [NameFromDnsPacketCursor]: the packet-aware decoder *)

(** Modelled from the spec: [DnsPacketCursor] of [./types], which is not among
    the sources.  The full packet buffer plus a byte offset. *)
Record DnsPacketCursor : Type := mkCursor {
  cursor_uint8Array : Uint8Array;
  cursor_offset : Z
}.

Definition MAX_NAME_BYTE_LENGTH : Z := 255.

Definition byteIsPointer (byte : Z) : bool := Z.land byte 192 =? 192.

Definition getPointerOffset (uint16 : Z) : Z := Z.land uint16 16383.

Module NameFromDnsPacketCursor.

(** The variables of [decode] that the loop updates; [dataView] is among
    them, as following a pointer replaces it. *)
Record State : Type := mkState {
  st_labels : list Label;
  st_offset : Z;
  st_bytesConsumed : Z;
  st_nameSize : Z;
  st_encounteredPointer : bool;
  st_dataView : DataView
}.

(** The window [decode] cuts from the packet at the cursor. *)
Definition window (cursor : DnsPacketCursor) : Uint8Array :=
  subarray (cursor_uint8Array cursor) (cursor_offset cursor)
    (cursor_offset cursor + MAX_NAME_BYTE_LENGTH).

Definition init (cursor : DnsPacketCursor) : State :=
  {| st_labels := []; st_offset := 0; st_bytesConsumed := 0;
     st_nameSize := 0; st_encounteredPointer := false;
     st_dataView := viewOf (window cursor) |}.

(** One iteration of the [while (true)] of [decode].  [uint8Array] is the
    window: label bytes are always cut from it, also after [dataView] has been
    replaced by a view of the whole packet. *)
Definition body (cursor : DnsPacketCursor) (uint8Array : Uint8Array)
    (s : State) : Step State State :=
  match getUint8 (st_dataView s) (st_offset s) with
  | Left issue => Fail issue
  | Right byte =>
      if byteIsPointer byte then
        if st_encounteredPointer s then Fail RecursivePointer
        else
          match getUint16 (st_dataView s) (st_offset s) with
          | Left issue => Fail issue
          | Right pointerAndOffset =>
              Continue {| st_labels := st_labels s;
                          st_offset := getPointerOffset pointerAndOffset;
                          st_bytesConsumed := st_bytesConsumed s + 2;
                          st_nameSize := st_nameSize s;
                          st_encounteredPointer := true;
                          st_dataView := viewOf (cursor_uint8Array cursor) |}
          end
      else
        let length := byte in
        if length =? 0 then Break s
        else if st_offset s + 1 + length >? byteLength (st_dataView s)
        then Fail (LabelOverrun (st_offset s))
        else
          match decodeLabel
                  (subarray uint8Array (st_offset s + 1)
                     (st_offset s + 1 + length)) with
          | Left issue => Fail issue
          | Right label =>
              let nameSize := st_nameSize s + byteLength label in
              if nameSize >? 255 then Fail NameTooLong
              else
                let offset := st_offset s + (length + 1) in
                Continue {| st_labels := st_labels s ++ [label];
                            st_offset := offset;
                            st_bytesConsumed :=
                              if st_encounteredPointer s
                              then st_bytesConsumed s else offset;
                            st_nameSize := nameSize;
                            st_encounteredPointer := st_encounteredPointer s;
                            st_dataView := st_dataView s |}
          end
  end.

(** Enough iterations to walk the window, follow one pointer and walk the
    packet. *)
Definition fuel (cursor : DnsPacketCursor) : nat :=
  (length (window cursor) + length (cursor_uint8Array cursor) + 3)%nat.

Definition decode (cursor : DnsPacketCursor) : option (ParseResult Name) :=
  let uint8Array := window cursor in
  if byteLength uint8Array <? 2
  then Some (Left (BufferTooShort (byteLength uint8Array)))
  else
    andThen
      (while_loop (body cursor uint8Array) (fuel cursor) (init cursor))
      (fun s => Right {| labels := st_labels s;
                         encodedByteLength := st_bytesConsumed s |}).

Definition encode (name : Name) : ParseResult DnsPacketCursor :=
  Left NotSupported.

End NameFromDnsPacketCursor.

Definition decodeNameFromDnsPacketCursor (cursor : DnsPacketCursor)
  : option (ParseResult Name) :=
  andThen (NameFromDnsPacketCursor.decode cursor) Name_validate.

(** ** The message framer *)

Module Message.

(** Modelled from the spec: [DnsPacketCursor.fromUint8Array] of [./types],
    which is not among the sources.  A cursor over the whole packet, at its
    first byte. *)
Definition fromUint8Array (uint8Array : Uint8Array) : DnsPacketCursor :=
  {| cursor_uint8Array := uint8Array; cursor_offset := 0 |}.

(** [cursor.offset += n]. *)
Definition advance (cursor : DnsPacketCursor) (n : Z) : DnsPacketCursor :=
  {| cursor_uint8Array := cursor_uint8Array cursor;
     cursor_offset := cursor_offset cursor + n |}.

Definition HEADER_BYTE_LENGTH : Z := 12.

Section Framer.

(** The header, question and resource-record decoders live in [./header],
    [./question] and [./resource-record], which are not among the sources:
    the framer is parametric in them. *)
Variables Header Question ResourceRecord : Type.
Variables qdcount ancount nscount arcount : Header -> Z.
Variable decodeHeaderFromUint8Array : Uint8Array -> ParseResult Header.
Variable decodeQuestionFromDnsPacketCursor
  : DnsPacketCursor -> ParseResult (Question * Z).
Variable decodeResourceRecordFromDnsPacketCursor
  : DnsPacketCursor -> ParseResult (ResourceRecord * Z).

Record Message : Type := mkMessage {
  header : Header;
  question : list Question;
  answer : list ResourceRecord;
  authority : list ResourceRecord;
  additional : list ResourceRecord
}.

(** One of the four [for] loops of [decode], with [n] iterations left: each
    decodes an element at the cursor, pushes it, and moves the cursor. *)
Fixpoint section {A} (decodeElement : DnsPacketCursor -> ParseResult (A * Z))
    (n : nat) (elements : list A) (cursor : DnsPacketCursor)
  : ParseResult (list A * DnsPacketCursor) :=
  match n with
  | O => Right (elements, cursor)
  | S n' =>
      r <- decodeElement cursor ;;
      let element := fst r in
      let encodedByteLength := snd r in
      section decodeElement n' (elements ++ [element])
        (advance cursor (encodedByteLength + 1))
  end.

(** [decode], returning the cursor it ends with next to the message. *)
Definition decode_run (uint8Array : Uint8Array)
  : ParseResult (Message * DnsPacketCursor) :=
  let cursor := fromUint8Array uint8Array in
  let headerUint8Array :=
    subarray uint8Array (cursor_offset cursor) HEADER_BYTE_LENGTH in
  header <- decodeHeaderFromUint8Array headerUint8Array ;;
  let cursor := advance cursor HEADER_BYTE_LENGTH in
  qs <- section decodeQuestionFromDnsPacketCursor
          (Z.to_nat (qdcount header)) [] cursor ;;
  an <- section decodeResourceRecordFromDnsPacketCursor
          (Z.to_nat (ancount header)) [] (snd qs) ;;
  ns <- section decodeResourceRecordFromDnsPacketCursor
          (Z.to_nat (nscount header)) [] (snd an) ;;
  ar <- section decodeResourceRecordFromDnsPacketCursor
          (Z.to_nat (arcount header)) [] (snd ns) ;;
  Right ({| header := header;
            question := fst qs;
            answer := fst an;
            authority := fst ns;
            additional := fst ar |}, snd ar).

Definition decode (uint8Array : Uint8Array) : ParseResult Message :=
  r <- decode_run uint8Array ;; Right (fst r).

Definition encode (message : Message) : ParseResult Uint8Array :=
  Left NotSupported.

(** The cursor positions a section goes through: from [cursor], decoding
    [elements] one after the other, each moving the cursor by [step] of the
    length its decoder reported, ends at the last argument. *)
Inductive walks {A} (decodeElement : DnsPacketCursor -> ParseResult (A * Z))
    (step : Z -> Z)
  : DnsPacketCursor -> list A -> DnsPacketCursor -> Prop :=
| walks_nil cursor : walks decodeElement step cursor [] cursor
| walks_cons cursor element encodedByteLength elements cursor' :
    decodeElement cursor = Right (element, encodedByteLength) ->
    walks decodeElement step (advance cursor (step encodedByteLength))
      elements cursor' ->
    walks decodeElement step cursor (element :: elements) cursor'.

End Framer.

End Message.

(** ** Vocabulary of the properties *)

(** The literal wire form of a list of labels: each label preceded by its
    length byte.  The terminator is not part of it. *)
Definition wire (ls : list Label) : Uint8Array :=
  flat_map (fun l => toUint8 (byteLength l) :: l) ls.

(** The sum of the label lengths, the quantity the decoders accumulate in
    [nameSize]. *)
Definition labelBytes (ls : list Label) : Z :=
  fold_right (fun l n => byteLength l + n) 0 ls.

Definition isLabel (l : Label) : Prop := Label_filter l = None.

(** Whether the iteration that starts in [s] reads a byte that is a
    compression pointer. *)
Definition readsPointer (s : NameFromDnsPacketCursor.State) : bool :=
  match getUint8 (NameFromDnsPacketCursor.st_dataView s)
          (NameFromDnsPacketCursor.st_offset s) with
  | Right byte => byteIsPointer byte
  | Left _ => false
  end.

(** The number of pointers followed in the first [n] iterations from [s]:
    the iterations that read a pointer and go on. *)
Fixpoint pointersFollowed (cursor : DnsPacketCursor) (n : nat)
    (s : NameFromDnsPacketCursor.State) : nat :=
  match n with
  | O => O
  | S n' =>
      match NameFromDnsPacketCursor.body cursor
              (NameFromDnsPacketCursor.window cursor) s with
      | Continue s' =>
          ((if readsPointer s then 1 else 0) + pointersFollowed cursor n' s')%nat
      | _ => O
      end
  end.

(** The issues a literal read of a label can end in. *)
Definition literalFailure (issue : ParseIssue) : bool :=
  match issue with
  | LabelOverrun _ | InvalidLabel _ | NameTooLong => true
  | _ => false
  end.

(** A label of [n] letters [a]. *)
Definition letters (n : nat) : Label := repeat (toUint8 97) n.

(** A packet with [example.com] written at offset 10 and, at offset 30, the
    compression pointer [C0 0A] to it, followed by the fixed fields and the
    four data bytes of an address record. *)
Definition compressedPacket : Uint8Array :=
  ofList (repeat 0 10
            ++ [7; 101; 120; 97; 109; 112; 108; 101; 3; 99; 111; 109; 0]
            ++ repeat 0 7
            ++ [192; 10]
            ++ [0; 1; 0; 1; 0; 0; 0; 60; 0; 4; 1; 2; 3; 4]).

(** A framer over stub decoders: the header counts two questions, and every
    element reports the offset it was decoded at and a length of 5. *)
Definition stubDecode (uint8Array : Uint8Array) :=
  @Message.decode_run unit Z Z
    (fun _ => 2) (fun _ => 0) (fun _ => 0) (fun _ => 0)
    (fun _ => Right tt)
    (fun cursor => Right (cursor_offset cursor, 5))
    (fun cursor => Right (cursor_offset cursor, 5))
    uint8Array.

(** ** Measures and invariants of the loops *)

(** The iterations the packet-aware loop can still make from [s]. *)
Definition measure (cursor : DnsPacketCursor)
    (s : NameFromDnsPacketCursor.State) : nat :=
  ((if NameFromDnsPacketCursor.st_encounteredPointer s then 0
    else length (cursor_uint8Array cursor) + 1)
   + Z.to_nat (byteLength (NameFromDnsPacketCursor.st_dataView s)
               - NameFromDnsPacketCursor.st_offset s))%nat.

(** Before a pointer is followed the packet-aware loop reads the window, and
    the label bytes accumulated never exceed the read offset. *)
Definition literal (cursor : DnsPacketCursor)
    (s : NameFromDnsPacketCursor.State) : Prop :=
  NameFromDnsPacketCursor.st_encounteredPointer s = false ->
  NameFromDnsPacketCursor.st_dataView s = NameFromDnsPacketCursor.window cursor
  /\ 0 <= NameFromDnsPacketCursor.st_nameSize s
        <= NameFromDnsPacketCursor.st_offset s.

(** What the standalone loop has established in [s]: the buffer starts with
    the wire form of the labels read, and the read offset is just past it. *)
Definition inv (u : Uint8Array) (s : NameFromUint8Array.State) : Prop :=
  (exists rest, u = wire (NameFromUint8Array.st_labels s) ++ rest)
  /\ NameFromUint8Array.st_offset s
     = byteLength (wire (NameFromUint8Array.st_labels s))
  /\ NameFromUint8Array.st_nameSize s
     = labelBytes (NameFromUint8Array.st_labels s)
  /\ Forall isLabel (NameFromUint8Array.st_labels s).

(** What the packet-aware loop has established in [s]: the window starts
    with the wire form of the first [k] labels read.  Before a pointer is
    followed these are all the labels, and the read offset and
    [bytesConsumed] are just past them; afterwards the window goes on with
    the pointer, and [bytesConsumed] is just past that pointer. *)
Definition shape (cursor : DnsPacketCursor)
    (s : NameFromDnsPacketCursor.State) : Prop :=
  exists (k : nat) (rest : Uint8Array),
    (k <= length (NameFromDnsPacketCursor.st_labels s))%nat
    /\ NameFromDnsPacketCursor.window cursor
       = wire (firstn k (NameFromDnsPacketCursor.st_labels s)) ++ rest
    /\ Forall isLabel (NameFromDnsPacketCursor.st_labels s)
    /\ if NameFromDnsPacketCursor.st_encounteredPointer s
       then (exists b rest', rest = b :: rest'
                             /\ byteIsPointer (u8 b) = true)
            /\ NameFromDnsPacketCursor.st_bytesConsumed s
               = byteLength
                   (wire (firstn k (NameFromDnsPacketCursor.st_labels s))) + 2
       else k = length (NameFromDnsPacketCursor.st_labels s)
            /\ NameFromDnsPacketCursor.st_offset s
               = byteLength (wire (NameFromDnsPacketCursor.st_labels s))
            /\ NameFromDnsPacketCursor.st_bytesConsumed s
               = NameFromDnsPacketCursor.st_offset s
            /\ NameFromDnsPacketCursor.st_dataView s
               = NameFromDnsPacketCursor.window cursor.

(** * Properties *)

(** ** Bytes and views *)

Lemma u8_range b : 0 <= u8 b < 256.
Proof. unfold u8. pose proof (Byte.to_N_bounded b). lia. Qed.

Lemma toUint8_u8 b : toUint8 (u8 b) = b.
Proof.
  unfold toUint8. rewrite Z.mod_small by apply u8_range.
  unfold u8. now rewrite N2Z.id, Byte.of_to_N.
Qed.

Lemma u8_toUint8 v : 0 <= v < 256 -> u8 (toUint8 v) = v.
Proof.
  intros Hv. unfold toUint8, u8. rewrite Z.mod_small by lia.
  destruct (Byte.of_N (Z.to_N v)) eqn:E.
  - apply Byte.to_of_N in E. rewrite E. lia.
  - apply Byte.of_N_None_iff in E. lia.
Qed.

Lemma byteIsPointer_u8 b : byteIsPointer (u8 b) = (192 <=? u8 b).
Proof. destruct b; reflexivity. Qed.

Lemma byteLength_nonneg u : 0 <= byteLength u.
Proof. unfold byteLength. lia. Qed.

Lemma byteLength_app u v : byteLength (u ++ v) = byteLength u + byteLength v.
Proof. unfold byteLength. rewrite length_app. lia. Qed.

Lemma byteLength_cons b u : byteLength (b :: u) = 1 + byteLength u.
Proof. unfold byteLength. simpl length. lia. Qed.

Lemma getUint8_Right dataView offset byte :
  getUint8 dataView offset = Right byte ->
  0 <= offset < byteLength dataView /\ 0 <= byte < 256.
Proof.
  unfold getUint8.
  destruct ((0 <=? offset) && (offset <? byteLength dataView)) eqn:E;
    [|discriminate].
  intros H. inversion H; subst. split; [lia | apply u8_range].
Qed.

Lemma getUint8_app pre b rest :
  getUint8 (pre ++ b :: rest) (byteLength pre) = Right (u8 b).
Proof.
  unfold getUint8. rewrite byteLength_app, byteLength_cons.
  pose proof (byteLength_nonneg pre). pose proof (byteLength_nonneg rest).
  replace ((0 <=? byteLength pre)
           && (byteLength pre <? byteLength pre + (1 + byteLength rest)))
    with true by (symmetry; apply andb_true_iff; split; lia).
  unfold byteLength. rewrite Nat2Z.id, nth_middle. reflexivity.
Qed.

Lemma subarray_app pre mid rest :
  subarray (pre ++ mid ++ rest) (byteLength pre)
    (byteLength pre + byteLength mid) = mid.
Proof.
  unfold subarray, relativeIndex. rewrite !byteLength_app.
  pose proof (byteLength_nonneg pre). pose proof (byteLength_nonneg mid).
  pose proof (byteLength_nonneg rest).
  replace (byteLength pre <? 0) with false by (symmetry; lia).
  replace (byteLength pre + byteLength mid <? 0) with false by (symmetry; lia).
  rewrite !Z.min_l by lia.
  replace (byteLength pre + byteLength mid - byteLength pre)
    with (byteLength mid) by lia.
  unfold byteLength. rewrite !Nat2Z.id.
  rewrite skipn_app, skipn_all, Nat.sub_diag. simpl.
  rewrite firstn_app, firstn_all, Nat.sub_diag. simpl.
  apply app_nil_r.
Qed.

Lemma subarray_length u b e :
  0 <= b -> b <= e -> e <= byteLength u -> byteLength (subarray u b e) = e - b.
Proof.
  intros Hb Hbe He. unfold subarray, relativeIndex.
  replace (b <? 0) with false by (symmetry; lia).
  replace (e <? 0) with false by (symmetry; lia).
  rewrite !Z.min_l by lia.
  unfold byteLength in *. rewrite length_firstn, length_skipn. lia.
Qed.

(** ** Loops *)

Section WhileLoop.

Context {St Res : Type} (body : St -> Step St Res).

(** A loop whose every iteration lowers a measure ends within that many
    iterations. *)
Lemma while_loop_measure (mu : St -> nat) :
  (forall s s', body s = Continue s' -> (mu s' < mu s)%nat) ->
  forall fuel s, (mu s < fuel)%nat -> while_loop body fuel s <> None.
Proof.
  intros Hdec. induction fuel as [|fuel IH]; intros s Hlt; [lia|].
  simpl. destruct (body s) as [s'| |] eqn:E; try discriminate.
  apply IH. specialize (Hdec _ _ E). lia.
Qed.

(** Once a loop has ended, more fuel changes nothing. *)
Lemma while_loop_more fuel k s r :
  while_loop body fuel s = Some r -> while_loop body (fuel + k) s = Some r.
Proof.
  revert s. induction fuel as [|fuel IH]; intros s; [discriminate|].
  simpl. destruct (body s); auto.
Qed.

Lemma while_loop_S fuel s :
  while_loop body (S fuel) s
  = match body s with
    | Continue s' => while_loop body fuel s'
    | Break r => Some (Right r)
    | Fail e => Some (Left e)
    end.
Proof. reflexivity. Qed.

(** An invariant of the iterations holds of the state the loop breaks in. *)
Lemma while_loop_invariant (P : St -> Prop) :
  (forall s s', P s -> body s = Continue s' -> P s') ->
  forall fuel s r, P s -> while_loop body fuel s = Some (Right r) ->
  exists s', P s' /\ body s' = Break r.
Proof.
  intros Hstep. induction fuel as [|fuel IH]; intros s r HP; [discriminate|].
  simpl. destruct (body s) as [s'|r'|e] eqn:E.
  - apply IH. eauto.
  - intros H. inversion H; subst. eauto.
  - discriminate.
Qed.

End WhileLoop.

Lemma andThen_Some {A B} (r : option (ParseResult A)) (k : A -> ParseResult B) :
  r <> None -> exists x, andThen r k = Some x.
Proof. destruct r as [[e|a]|]; simpl; eauto. congruence. Qed.

Lemma andThen_Right {A B} (r : option (ParseResult A)) (k : A -> ParseResult B) b :
  andThen r k = Some (Right b) -> exists a, r = Some (Right a) /\ k a = Right b.
Proof.
  destruct r as [[e|a]|]; simpl; try discriminate.
  intros H. inversion H. eauto.
Qed.

(** ** The packet-aware decoder: iterations *)

Module CursorLoop.
Import NameFromDnsPacketCursor.

(** Every iteration that goes on either follows a pointer, for the first
    time, or moves the read offset forward within the view. *)
Lemma body_Continue cursor w s s' :
  body cursor w s = Continue s' ->
  (readsPointer s = true /\ st_encounteredPointer s = false
   /\ st_encounteredPointer s' = true
   /\ st_dataView s' = cursor_uint8Array cursor /\ 0 <= st_offset s'
   /\ st_bytesConsumed s' = st_bytesConsumed s + 2
   /\ st_labels s' = st_labels s)
  \/
  (readsPointer s = false
   /\ st_encounteredPointer s' = st_encounteredPointer s
   /\ st_dataView s' = st_dataView s
   /\ st_offset s < st_offset s' <= byteLength (st_dataView s)).
Proof.
  unfold body, readsPointer.
  destruct (getUint8 (st_dataView s) (st_offset s)) as [e|byte] eqn:Hget;
    [discriminate|].
  apply getUint8_Right in Hget. destruct Hget as [Hoff Hbyte].
  destruct (byteIsPointer byte) eqn:Hptr.
  - destruct (st_encounteredPointer s) eqn:Hep; [discriminate|].
    destruct (getUint16 (st_dataView s) (st_offset s)); [discriminate|].
    intros H. inversion H; subst; clear H. simpl. left.
    repeat split; try reflexivity.
    unfold getPointerOffset. apply Z.land_nonneg. right. lia.
  - destruct (byte =? 0) eqn:Hz; [discriminate|].
    destruct (st_offset s + 1 + byte >? byteLength (st_dataView s)) eqn:Hfit;
      [discriminate|].
    destruct (decodeLabel _) as [e|label]; [discriminate|].
    destruct (_ >? 255); [discriminate|].
    intros H. inversion H; subst; clear H. simpl. right.
    repeat split; try reflexivity; lia.
Qed.

Lemma measure_decreases cursor w s s' :
  body cursor w s = Continue s' ->
  (measure cursor s' < measure cursor s)%nat.
Proof.
  intros H. apply body_Continue in H. unfold measure.
  destruct H as [(_ & Hep & Hep' & Hdv & Hoff & _) | (_ & Hep & Hdv & Hoff)].
  - rewrite Hep, Hep', Hdv. unfold byteLength. lia.
  - rewrite Hep, Hdv. destruct (st_encounteredPointer s); lia.
Qed.

Lemma loop_ends cursor :
  while_loop (body cursor (window cursor)) (fuel cursor) (init cursor) <> None.
Proof.
  apply while_loop_measure with (mu := measure cursor).
  - intros s s'. apply measure_decreases.
  - unfold measure, fuel, init, viewOf, byteLength. simpl. lia.
Qed.

Lemma pointersFollowed_after cursor n s :
  st_encounteredPointer s = true -> pointersFollowed cursor n s = O.
Proof.
  revert s. induction n as [|n IH]; intros s Hep; [reflexivity|].
  simpl. destruct (body cursor (window cursor) s) as [s'| |] eqn:E; trivial.
  apply body_Continue in E.
  destruct E as [(_ & Hep0 & _) | (Hrd & Hep' & _)]; [congruence|].
  rewrite Hrd, IH; [reflexivity | congruence].
Qed.

Lemma pointersFollowed_le_1 cursor n s :
  (pointersFollowed cursor n s <= 1)%nat.
Proof.
  revert s. induction n as [|n IH]; intros s; [simpl; lia|].
  simpl. destruct (body cursor (window cursor) s) as [s'| |] eqn:E; try lia.
  apply body_Continue in E.
  destruct E as [(Hrd & _ & Hep' & _) | (Hrd & _)]; rewrite Hrd.
  - rewrite pointersFollowed_after by assumption. lia.
  - specialize (IH s'). lia.
Qed.

Lemma body_follow cursor w s byte pointerAndOffset :
  st_encounteredPointer s = false ->
  getUint8 (st_dataView s) (st_offset s) = Right byte ->
  byteIsPointer byte = true ->
  getUint16 (st_dataView s) (st_offset s) = Right pointerAndOffset ->
  body cursor w s
  = Continue {| st_labels := st_labels s;
                st_offset := getPointerOffset pointerAndOffset;
                st_bytesConsumed := st_bytesConsumed s + 2;
                st_nameSize := st_nameSize s;
                st_encounteredPointer := true;
                st_dataView := viewOf (cursor_uint8Array cursor) |}.
Proof.
  intros Hep Hget Hptr H16. unfold body. now rewrite Hget, Hptr, Hep, H16.
Qed.

Lemma body_ends cursor w s :
  getUint8 (st_dataView s) (st_offset s) = Right 0 -> body cursor w s = Break s.
Proof. intros H. unfold body. now rewrite H. Qed.

Lemma body_recursive cursor w s byte :
  st_encounteredPointer s = true ->
  getUint8 (st_dataView s) (st_offset s) = Right byte ->
  byteIsPointer byte = true ->
  body cursor w s = Fail RecursivePointer.
Proof. intros Hep Hget Hptr. unfold body. now rewrite Hget, Hptr, Hep. Qed.

End CursorLoop.

(** C8. Packet-aware name decoding terminates on every packet buffer and
    cursor offset: the loop ends (with a name or with an issue) within the
    bound computed from the input, and iterating further changes nothing.
    The reason is the one the claim gives: an iteration that goes on either
    follows a pointer, which happens only while none has been followed, or
    moves the read offset strictly forward within the view it reads. *)
Theorem decodeNameFromDnsPacketCursor_terminates (cursor : DnsPacketCursor) :
  (exists r, decodeNameFromDnsPacketCursor cursor = Some r)
  /\ (forall k,
        while_loop
          (NameFromDnsPacketCursor.body cursor
             (NameFromDnsPacketCursor.window cursor))
          (NameFromDnsPacketCursor.fuel cursor + k)
          (NameFromDnsPacketCursor.init cursor)
        = while_loop
            (NameFromDnsPacketCursor.body cursor
               (NameFromDnsPacketCursor.window cursor))
            (NameFromDnsPacketCursor.fuel cursor)
            (NameFromDnsPacketCursor.init cursor))
  /\ (forall s s',
         NameFromDnsPacketCursor.body cursor
           (NameFromDnsPacketCursor.window cursor) s = Continue s' ->
         (readsPointer s = true
          /\ NameFromDnsPacketCursor.st_encounteredPointer s = false
          /\ NameFromDnsPacketCursor.st_encounteredPointer s' = true)
         \/
         (readsPointer s = false
          /\ NameFromDnsPacketCursor.st_encounteredPointer s'
             = NameFromDnsPacketCursor.st_encounteredPointer s
          /\ NameFromDnsPacketCursor.st_dataView s'
             = NameFromDnsPacketCursor.st_dataView s
          /\ NameFromDnsPacketCursor.st_offset s
             < NameFromDnsPacketCursor.st_offset s'
             <= byteLength (NameFromDnsPacketCursor.st_dataView s))).
Proof.
  pose proof (CursorLoop.loop_ends cursor) as Hends. split; [|split].
  - unfold decodeNameFromDnsPacketCursor. apply andThen_Some.
    unfold NameFromDnsPacketCursor.decode.
    destruct (_ <? 2); [discriminate|].
    intros H.
    destruct (andThen_Some
                (fun s => Right {| labels := NameFromDnsPacketCursor.st_labels s;
                                   encodedByteLength :=
                                     NameFromDnsPacketCursor.st_bytesConsumed s |}
                          : ParseResult Name) Hends) as [x Hx].
    congruence.
  - intros k.
    destruct (while_loop _ (NameFromDnsPacketCursor.fuel cursor) _) as [r|] eqn:E;
      [|contradiction].
    now apply while_loop_more.
  - intros s s' Hstep. apply CursorLoop.body_Continue in Hstep.
    destruct Hstep as [(Hrd & Hep & Hep' & _) | H]; [left | right]; auto.
Qed.

(** At the pointer [C0 02] the first iteration goes on by following it. *)
Lemma decodeNameFromDnsPacketCursor_terminates_witness :
  readsPointer
    (NameFromDnsPacketCursor.init
       {| cursor_uint8Array := ofList [192; 2; 1; 97; 0]; cursor_offset := 0 |})
  = true.
Proof.
  destruct (proj2 (proj2 (decodeNameFromDnsPacketCursor_terminates
                            {| cursor_uint8Array := ofList [192; 2; 1; 97; 0];
                               cursor_offset := 0 |}))
              (NameFromDnsPacketCursor.init
                 {| cursor_uint8Array := ofList [192; 2; 1; 97; 0];
                    cursor_offset := 0 |})
              {| NameFromDnsPacketCursor.st_labels := [];
                 NameFromDnsPacketCursor.st_offset := 2;
                 NameFromDnsPacketCursor.st_bytesConsumed := 2;
                 NameFromDnsPacketCursor.st_nameSize := 0;
                 NameFromDnsPacketCursor.st_encounteredPointer := true;
                 NameFromDnsPacketCursor.st_dataView :=
                   ofList [192; 2; 1; 97; 0] |}
              eq_refl)
    as [(Hrd & _) | (Hrd & _)].
  - exact Hrd.
  - vm_compute in Hrd. discriminate.
Defined.

(** A pointer at the cursor whose target holds another pointer. *)
Lemma pointer_to_pointer cursor b0 b1 rest byte :
  NameFromDnsPacketCursor.window cursor = b0 :: b1 :: rest ->
  byteIsPointer (u8 b0) = true ->
  getUint8 (cursor_uint8Array cursor)
    (getPointerOffset (u8 b0 * 256 + u8 b1)) = Right byte ->
  byteIsPointer byte = true ->
  decodeNameFromDnsPacketCursor cursor = Some (Left RecursivePointer).
Proof.
  intros Hw Hp0 Hget Hp.
  unfold decodeNameFromDnsPacketCursor, NameFromDnsPacketCursor.decode.
  rewrite Hw. rewrite !byteLength_cons.
  pose proof (byteLength_nonneg rest).
  replace (1 + (1 + byteLength rest) <? 2) with false by (symmetry; lia).
  rewrite <- Hw.
  replace (NameFromDnsPacketCursor.fuel cursor)
    with (2 + (length (NameFromDnsPacketCursor.window cursor)
               + length (cursor_uint8Array cursor) + 1))%nat
    by (unfold NameFromDnsPacketCursor.fuel; lia).
  rewrite while_loop_more with (r := Left RecursivePointer); [reflexivity|].
  assert (Hu8 : getUint8 (b0 :: b1 :: rest) 0 = Right (u8 b0)) by reflexivity.
  assert (Hu16 : getUint16 (b0 :: b1 :: rest) 0 = Right (u8 b0 * 256 + u8 b1)).
  { unfold getUint16. rewrite Hu8. simpl bind.
    change (b0 :: b1 :: rest) with ([b0] ++ b1 :: rest).
    change (0 + 1) with (byteLength [b0]).
    now rewrite getUint8_app. }
  rewrite while_loop_S.
  rewrite CursorLoop.body_follow
    with (byte := u8 b0) (pointerAndOffset := u8 b0 * 256 + u8 b1);
    [ | reflexivity
      | simpl; unfold viewOf; rewrite Hw; exact Hu8
      | exact Hp0
      | simpl; unfold viewOf; rewrite Hw; exact Hu16 ].
  rewrite while_loop_S.
  rewrite CursorLoop.body_recursive with (byte := byte); auto.
Qed.

(** C5. In packet-aware name decoding, an iteration that reads a byte with
    the top two bits set after a pointer has been followed fails with
    [RecursivePointer]; no run of the loop follows more than one pointer; and
    a pointer at the cursor whose target is itself a pointer makes the whole
    decode fail with [RecursivePointer]. *)
Theorem recursive_pointer_rejected :
  (forall cursor w s byte,
      NameFromDnsPacketCursor.st_encounteredPointer s = true ->
      getUint8 (NameFromDnsPacketCursor.st_dataView s)
        (NameFromDnsPacketCursor.st_offset s) = Right byte ->
      byteIsPointer byte = true ->
      NameFromDnsPacketCursor.body cursor w s = Fail RecursivePointer)
  /\ (forall cursor n,
         (pointersFollowed cursor n (NameFromDnsPacketCursor.init cursor)
          <= 1)%nat)
  /\ (forall cursor b0 b1 rest byte,
         NameFromDnsPacketCursor.window cursor = b0 :: b1 :: rest ->
         byteIsPointer (u8 b0) = true ->
         getUint8 (cursor_uint8Array cursor)
           (getPointerOffset (u8 b0 * 256 + u8 b1)) = Right byte ->
         byteIsPointer byte = true ->
         decodeNameFromDnsPacketCursor cursor = Some (Left RecursivePointer)).
Proof.
  split; [|split].
  - intros. eapply CursorLoop.body_recursive; eauto.
  - intros. apply CursorLoop.pointersFollowed_le_1.
  - intros. eapply pointer_to_pointer; eauto.
Qed.

(** Two pointers pointing at each other: [C0 02 C0 00], decoded at 0. *)
Lemma recursive_pointer_rejected_witness :
  decodeNameFromDnsPacketCursor
    {| cursor_uint8Array := ofList [192; 2; 192; 0]; cursor_offset := 0 |}
  = Some (Left RecursivePointer).
Proof.
  apply (proj2 (proj2 recursive_pointer_rejected)
           {| cursor_uint8Array := ofList [192; 2; 192; 0]; cursor_offset := 0 |}
           (toUint8 192) (toUint8 2) (ofList [192; 0]) 192);
    reflexivity.
Defined.

(** ** Labels *)

Lemma at_inside u i :
  0 <= i < byteLength u -> at_ u i = Some (u8 (nth (Z.to_nat i) u x00)).
Proof.
  intros Hi. unfold at_.
  replace (i <? 0) with false by (symmetry; lia).
  replace ((i <? 0) || (byteLength u <=? i)) with false
    by (symmetry; apply orb_false_iff; split; lia).
  rewrite nth_error_nth' with (d := x00); [reflexivity|].
  unfold byteLength in Hi. lia.
Qed.

Lemma at_Some u i v : 0 <= i -> at_ u i = Some v -> i < byteLength u.
Proof.
  intros Hi. unfold at_. replace (i <? 0) with false by (symmetry; lia).
  destruct (byteLength u <=? i) eqn:E; [|lia].
  rewrite orb_true_r. discriminate.
Qed.

Lemma Label_for_None u n idx :
  Label_for u n idx = None <->
  (forall i, idx <= i < idx + Z.of_nat n -> Label_body u i = None).
Proof.
  revert idx. induction n as [|n IH]; intros idx; simpl Label_for.
  - split; [intros _ i Hi; lia | reflexivity].
  - destruct (Label_body u idx) eqn:E.
    + split; [discriminate|]. intros H. rewrite H in E by lia. discriminate.
    + rewrite IH. split; intros H i Hi.
      * destruct (Z.eq_dec i idx) as [->|]; [assumption | apply H; lia].
      * apply H. lia.
Qed.

Lemma Label_for_first u n idx k issue :
  (forall i, idx <= i < k -> Label_body u i = None) ->
  Label_body u k = Some issue ->
  idx <= k < idx + Z.of_nat n ->
  Label_for u n idx = Some issue.
Proof.
  revert idx. induction n as [|n IH]; intros idx Hbefore Hk Hrange; [lia|].
  simpl. destruct (Z.eq_dec idx k) as [->|Hne].
  - now rewrite Hk.
  - rewrite Hbefore by lia. apply IH; auto.
    + intros i Hi. apply Hbefore. lia.
    + lia.
Qed.

Lemma Label_filter_None u :
  Label_filter u = None <->
  1 <= byteLength u <= 63
  /\ (forall i, 0 <= i < byteLength u -> Label_body u i = None).
Proof.
  unfold Label_filter. pose proof (byteLength_nonneg u).
  destruct ((byteLength u =? 0) || (byteLength u >? 63)) eqn:E.
  - split; [discriminate|]. intros [Hlen _].
    apply orb_true_iff in E. destruct E; lia.
  - apply orb_false_iff in E. rewrite Label_for_None.
    unfold byteLength in *. split.
    + intros Hb. split; [lia|]. intros i Hi. apply Hb. lia.
    + intros [_ Hb] i Hi. apply Hb. lia.
Qed.

Lemma Label_length l : isLabel l -> 1 <= byteLength l <= 63.
Proof. intros H. now apply Label_filter_None in H. Qed.

(** Reading the hyphen at index 3 of a label that has one at index 2. *)
Lemma Label_body_3 l :
  at_ l 2 = Some 45 -> at_ l 3 = Some 45 ->
  3 <> byteLength l - 1 ->
  Label_body l 3
  = if (orZero (at_ l 0) =? 120) && (orZero (at_ l 1) =? 110)
    then None else Some LabelDoubleHyphen.
Proof.
  intros H2 H3 Hlast. unfold Label_body.
  change (3 - 1) with 2. change (3 >? 0) with true. cbv iota.
  rewrite H2, H3. simpl isValidLabelCharacter. simpl isHypen.
  change (3 =? 0) with false.
  replace (3 =? byteLength l - 1) with false by (symmetry; lia).
  simpl. now destruct (_ && _).
Qed.

(** Any other index passes when its byte is a label character and is not a
    hyphen in first or last position. *)
Lemma Label_body_other l i :
  i <> 3 ->
  isValidLabelCharacter (at_ l i) = true ->
  (i = 0 -> isHypen (at_ l i) = false) ->
  (i = byteLength l - 1 -> isHypen (at_ l i) = false) ->
  Label_body l i = None.
Proof.
  intros Hi Hvalid Hfirst Hlast. unfold Label_body. rewrite Hvalid. simpl.
  destruct (i =? 0) eqn:E0.
  - rewrite Hfirst by lia. simpl.
    destruct (i =? byteLength l - 1) eqn:E1; simpl.
    + replace (i =? 3) with false by (symmetry; lia).
      now rewrite !andb_false_r.
    + replace (i =? 3) with false by (symmetry; lia).
      now rewrite !andb_false_r.
  - simpl. destruct (i =? byteLength l - 1) eqn:E1.
    + rewrite Hlast by lia. simpl.
      replace (i =? 3) with false by (symmetry; lia).
      now rewrite !andb_false_r.
    + simpl. replace (i =? 3) with false by (symmetry; lia).
      now rewrite !andb_false_r.
Qed.

Lemma forallb_at l i :
  forallb (fun b => isValidLabelCharacter (Some (u8 b))) l = true ->
  0 <= i < byteLength l ->
  isValidLabelCharacter (at_ l i) = true.
Proof.
  intros Hall Hi. rewrite at_inside by assumption.
  rewrite forallb_forall in Hall. apply Hall. apply nth_In.
  unfold byteLength in Hi. lia.
Qed.

(** C7. A label whose 3rd and 4th bytes are both hyphens is accepted only if
    its first two bytes are [x] then [n]; and when such a label keeps the other
    rules (at most 63 bytes, only label characters, no hyphen first or last)
    it is accepted exactly when its first two bytes are [x] then [n], the
    rejection being the double-hyphen one.  [xn--abc] is accepted and [ab--cd]
    is rejected with an [InvalidLabel] issue. *)
Theorem Label_ace_prefix :
  (forall l,
      at_ l 2 = Some 45 -> at_ l 3 = Some 45 ->
      Label_filter l = None ->
      at_ l 0 = Some 120 /\ at_ l 1 = Some 110)
  /\ (forall l,
         at_ l 2 = Some 45 -> at_ l 3 = Some 45 ->
         byteLength l <= 63 ->
         forallb (fun b => isValidLabelCharacter (Some (u8 b))) l = true ->
         isHypen (at_ l 0) = false ->
         isHypen (at_ l (byteLength l - 1)) = false ->
         Label_filter l
         = if (orZero (at_ l 0) =? 120) && (orZero (at_ l 1) =? 110)
           then None else Some LabelDoubleHyphen)
  /\ decodeLabel (ofList [120; 110; 45; 45; 97; 98; 99])
     = Right (ofList [120; 110; 45; 45; 97; 98; 99])
  /\ decodeLabel (ofList [97; 98; 45; 45; 99; 100])
     = Left (InvalidLabel LabelDoubleHyphen).
Proof.
  split; [|split; [|split; reflexivity]].
  - intros l H2 H3 Hok.
    apply Label_filter_None in Hok. destruct Hok as [Hlen Hbody].
    assert (Hlt : 3 < byteLength l)
      by (apply at_Some with (v := 45); [lia | assumption]).
    assert (Hb3 := Hbody 3 ltac:(lia)).
    assert (Hlast : 3 <> byteLength l - 1).
    { intros Heq. unfold Label_body in Hb3. rewrite H3 in Hb3.
      simpl in Hb3. rewrite <- Heq in Hb3. simpl in Hb3. discriminate. }
    rewrite Label_body_3 in Hb3 by assumption.
    destruct (orZero (at_ l 0) =? 120) eqn:E0; [|discriminate].
    destruct (orZero (at_ l 1) =? 110) eqn:E1; [|discriminate].
    apply Z.eqb_eq in E0, E1.
    destruct (at_ l 0), (at_ l 1); simpl in E0, E1; try discriminate.
    now subst.
  - intros l H2 H3 Hlen Hall Hfirst Hend.
    assert (Hlt : 3 < byteLength l)
      by (apply at_Some with (v := 45); [lia | assumption]).
    assert (Hlast : 3 <> byteLength l - 1).
    { intros Heq. rewrite <- Heq, H3 in Hend. discriminate. }
    assert (Hother : forall i, 0 <= i < byteLength l -> i <> 3 ->
                               Label_body l i = None).
    { intros i Hi Hne. apply Label_body_other; auto.
      - now apply forallb_at.
      - intros ->. assumption.
      - intros ->. assumption. }
    pose proof (Label_body_3 l H2 H3 Hlast) as Hb3.
    destruct ((orZero (at_ l 0) =? 120) && (orZero (at_ l 1) =? 110)).
    + apply Label_filter_None. split; [lia|].
      intros i Hi. destruct (Z.eq_dec i 3) as [->|]; auto.
    + unfold Label_filter.
      replace ((byteLength l =? 0) || (byteLength l >? 63)) with false
        by (symmetry; apply orb_false_iff; split; lia).
      apply Label_for_first with (k := 3); auto.
      * intros i Hi. apply Hother; lia.
      * unfold byteLength in *. lia.
Qed.

(** [xn--abc] keeps the other rules and has the prefix; it is accepted. *)
Lemma Label_ace_prefix_witness :
  Label_filter (ofList [120; 110; 45; 45; 97; 98; 99]) = None
  /\ at_ (ofList [120; 110; 45; 45; 97; 98; 99]) 0 = Some 120
  /\ at_ (ofList [120; 110; 45; 45; 97; 98; 99]) 1 = Some 110.
Proof.
  split.
  - refine (proj1 (proj2 Label_ace_prefix)
              (ofList [120; 110; 45; 45; 97; 98; 99]) _ _ _ _ _ _);
      solve [reflexivity | vm_compute; discriminate].
  - refine (proj1 Label_ace_prefix
              (ofList [120; 110; 45; 45; 97; 98; 99]) _ _ _);
      reflexivity.
Defined.

(** ** The [Name] schema *)

Lemma wire_app ls ls' : wire (ls ++ ls') = wire ls ++ wire ls'.
Proof. unfold wire. apply flat_map_app. Qed.

Lemma wire_cons l ls : wire (l :: ls) = (toUint8 (byteLength l) :: l) ++ wire ls.
Proof. reflexivity. Qed.

Lemma labelBytes_nonneg ls : 0 <= labelBytes ls.
Proof.
  induction ls as [|l ls IH]; simpl; [lia|].
  pose proof (byteLength_nonneg l). lia.
Qed.

Lemma labelBytes_app ls ls' :
  labelBytes (ls ++ ls') = labelBytes ls + labelBytes ls'.
Proof. induction ls as [|l ls IH]; simpl; lia. Qed.

Lemma wire_length ls :
  byteLength (wire ls) = Z.of_nat (length ls) + labelBytes ls.
Proof.
  induction ls as [|l ls IH]; [reflexivity|].
  rewrite wire_cons, byteLength_app, byteLength_cons, IH.
  simpl length. simpl labelBytes. lia.
Qed.

Lemma fold_left_labelBytes ls a :
  fold_left (fun bytes l => bytes + byteLength l) ls a = a + labelBytes ls.
Proof.
  revert a. induction ls as [|l ls IH]; intros a; simpl; [lia|].
  rewrite IH. lia.
Qed.

Lemma Name_labels_each_None ls :
  Name_labels_each ls = None <-> Forall isLabel ls.
Proof.
  induction ls as [|l ls IH]; simpl.
  - split; auto.
  - destruct (Label_filter l) eqn:E.
    + split; [discriminate|]. intros H. inversion H; subst.
      unfold isLabel in *. congruence.
    + rewrite IH. split; intros H.
      * constructor; assumption.
      * now inversion H.
Qed.

Lemma Name_labels_filter_None ls :
  Name_labels_filter ls = None <->
  ls <> [] /\ byteLength (wire ls) + 1 <= 255.
Proof.
  unfold Name_labels_filter. rewrite fold_left_labelBytes, wire_length.
  pose proof (labelBytes_nonneg ls).
  destruct (_ =? 0) eqn:E0.
  - split; [discriminate|]. intros [Hne Hle]. exfalso.
    destruct ls; [congruence|]. apply Z.eqb_eq in E0. simpl length in E0.
    lia.
  - destruct (_ >? 255) eqn:E1.
    + split; [discriminate|]. intros [_ Hle]. lia.
    + split; [|reflexivity]. intros _. split; [|lia].
      intros ->. simpl in E0. discriminate.
Qed.

(** What passing validation against [Name] amounts to. *)
Lemma Name_validate_Right n n' :
  Name_validate n = Right n' <->
  n' = n /\ Forall isLabel (labels n) /\ labels n <> []
  /\ byteLength (wire (labels n)) + 1 <= 255
  /\ 1 <= encodedByteLength n <= 255.
Proof.
  unfold Name_validate.
  destruct (Name_labels_each (labels n)) eqn:Each.
  - split; [discriminate|]. intros (_ & H & _).
    apply Name_labels_each_None in H. congruence.
  - apply Name_labels_each_None in Each.
    destruct (Name_labels_filter (labels n)) eqn:Fil.
    + split; [discriminate|]. intros (_ & _ & H1 & H2 & _).
      assert (Name_labels_filter (labels n) = None)
        by (apply Name_labels_filter_None; auto).
      congruence.
    + apply Name_labels_filter_None in Fil. destruct Fil as [Hne Hle].
      unfold between.
      destruct ((1 <=? encodedByteLength n) && (encodedByteLength n <=? 255))
        eqn:Hb.
      * apply andb_true_iff in Hb. destruct Hb as [Hlo Hhi].
        split.
        -- intros H. inversion H; subst n'. repeat split; auto; lia.
        -- intros (-> & _). reflexivity.
      * apply andb_false_iff in Hb.
        split; [discriminate|]. intros (_ & _ & _ & _ & H). lia.
Qed.

(** ** The standalone decoder: iterations *)

Module ArrayLoop.
Import NameFromUint8Array.

(** An iteration that goes on has read a non-zero length byte and cut the
    label that follows it from the buffer; it never moves anywhere else. *)
Lemma body_goes_on u s s' :
  body u (viewOf u) s = Continue s' ->
  exists length label,
    getUint8 u (st_offset s) = Right length /\ 1 <= length <= 255
    /\ st_offset s + 1 + length <= byteLength u
    /\ label = subarray u (st_offset s + 1) (st_offset s + 1 + length)
    /\ isLabel label
    /\ st_nameSize s + byteLength label <= 255
    /\ s' = {| st_labels := st_labels s ++ [label];
               st_offset := st_offset s + (length + 1);
               st_nameSize := st_nameSize s + byteLength label |}.
Proof.
  unfold body, viewOf.
  destruct (getUint8 u (st_offset s)) as [e|length] eqn:Hget; [discriminate|].
  pose proof (getUint8_Right _ _ Hget) as [Hoff Hbyte].
  destruct (length =? 0) eqn:Hz; [discriminate|].
  destruct (_ >? byteLength u) eqn:Hfit; [discriminate|].
  unfold decodeLabel.
  destruct (Label_filter _) eqn:Hlabel; [discriminate|].
  destruct (_ >? 255) eqn:Hsize; [discriminate|].
  intros H. inversion H; subst; clear H.
  exists length, (subarray u (st_offset s + 1) (st_offset s + 1 + length)).
  repeat split; auto; lia.
Qed.

Lemma array_loop_ends u s :
  (Z.to_nat (byteLength u - st_offset s) < fuel u)%nat ->
  while_loop (body u (viewOf u)) (fuel u) s <> None.
Proof.
  apply while_loop_measure
    with (mu := fun s => Z.to_nat (byteLength u - st_offset s)).
  intros s0 s1 H. apply body_goes_on in H.
  destruct H as (length & label & _ & Hlen & Hfit & _ & _ & _ & ->).
  simpl. lia.
Qed.

(** An iteration at a label: the buffer holds the length byte of [l] and then
    [l] at the read offset. *)
Lemma body_label u pre l rest s :
  u = pre ++ (toUint8 (byteLength l) :: l) ++ rest ->
  st_offset s = byteLength pre ->
  1 <= byteLength l <= 255 ->
  body u (viewOf u) s
  = match decodeLabel l with
    | Left issue => Fail issue
    | Right label =>
        if st_nameSize s + byteLength label >? 255 then Fail NameTooLong
        else Continue {| st_labels := st_labels s ++ [label];
                         st_offset := st_offset s + (byteLength l + 1);
                         st_nameSize := st_nameSize s + byteLength label |}
    end.
Proof.
  intros Hu Hoff Hlen. unfold body, viewOf. rewrite Hoff.
  assert (Hget : getUint8 u (byteLength pre) = Right (byteLength l)).
  { rewrite Hu. simpl app. rewrite getUint8_app. f_equal.
    apply u8_toUint8. lia. }
  rewrite Hget.
  replace (byteLength l =? 0) with false by (symmetry; lia).
  assert (Hsize : byteLength u
                  = byteLength pre + 1 + byteLength l + byteLength rest).
  { rewrite Hu. rewrite !byteLength_app, byteLength_cons. lia. }
  pose proof (byteLength_nonneg rest).
  replace (byteLength pre + 1 + byteLength l >? byteLength u) with false
    by (symmetry; lia).
  assert (Hsub : subarray u (byteLength pre + 1)
                   (byteLength pre + 1 + byteLength l) = l).
  { rewrite Hu.
    replace (pre ++ (toUint8 (byteLength l) :: l) ++ rest)
      with ((pre ++ [toUint8 (byteLength l)]) ++ l ++ rest)
      by (rewrite <- app_assoc; reflexivity).
    replace (byteLength pre + 1)
      with (byteLength (pre ++ [toUint8 (byteLength l)]))
      by (rewrite byteLength_app; reflexivity).
    apply subarray_app. }
  rewrite Hsub. reflexivity.
Qed.

(** Running over a literal sequence of labels that stays within the size
    limit. *)
Lemma run_labels u ls : forall pre rest s k,
  u = pre ++ wire ls ++ rest ->
  st_offset s = byteLength pre ->
  Forall isLabel ls ->
  st_nameSize s + labelBytes ls <= 255 ->
  while_loop (body u (viewOf u)) (length ls + k) s
  = while_loop (body u (viewOf u)) k
      {| st_labels := st_labels s ++ ls;
         st_offset := st_offset s + byteLength (wire ls);
         st_nameSize := st_nameSize s + labelBytes ls |}.
Proof.
  induction ls as [|l ls IH]; intros pre rest s k Hu Hoff Hall Hsize.
  - simpl. destruct s; simpl. f_equal. f_equal.
    + symmetry. apply app_nil_r.
    + change (byteLength []) with 0. lia.
    + lia.
  - apply Forall_cons_iff in Hall. destruct Hall as [Hl Hls].
    pose proof (Label_length Hl) as Hlen.
    pose proof (labelBytes_nonneg ls) as Hnn.
    simpl labelBytes in Hsize.
    simpl length. simpl Nat.add. rewrite while_loop_S.
    rewrite body_label with (pre := pre) (l := l) (rest := wire ls ++ rest);
      [ | rewrite Hu, wire_cons, <- app_assoc; reflexivity | assumption | lia ].
    unfold decodeLabel. rewrite Hl.
    replace (st_nameSize s + byteLength l >? 255) with false
      by (symmetry; lia).
    rewrite IH with (pre := pre ++ toUint8 (byteLength l) :: l) (rest := rest);
      [ | rewrite Hu, wire_cons, <- !app_assoc; reflexivity
        | simpl; rewrite Hoff, byteLength_app, byteLength_cons; lia
        | assumption
        | simpl; lia ].
    cbn [st_labels st_offset st_nameSize]. simpl labelBytes.
    f_equal. f_equal.
    + rewrite <- app_assoc. reflexivity.
    + rewrite wire_cons, byteLength_app, byteLength_cons. lia.
    + lia.
Qed.

Lemma inv_init u : inv u init.
Proof. repeat split; simpl; eauto. Qed.

Lemma cut_prefix (rest : Uint8Array) n :
  0 <= n <= byteLength rest ->
  exists mid rest', rest = mid ++ rest' /\ byteLength mid = n.
Proof.
  intros Hn. exists (firstn (Z.to_nat n) rest), (skipn (Z.to_nat n) rest).
  split; [symmetry; apply firstn_skipn|].
  unfold byteLength in *. rewrite length_firstn. lia.
Qed.

Lemma inv_step u s s' :
  inv u s -> body u (viewOf u) s = Continue s' -> inv u s'.
Proof.
  intros ([rest Hu] & Hoff & Hsize & Hall) Hstep.
  apply body_goes_on in Hstep.
  destruct Hstep as (length & label & Hget & Hlen & Hfit & -> & Hok & _ & ->).
  rewrite Hoff in *.
  assert (Hrest : 1 + length <= byteLength rest).
  { rewrite Hu, byteLength_app in Hfit. lia. }
  destruct rest as [|b rest]; [change (byteLength []) with 0 in Hrest; lia|].
  rewrite byteLength_cons in Hrest.
  assert (Hb : u8 b = length).
  { rewrite Hu, getUint8_app in Hget. now inversion Hget. }
  destruct (cut_prefix rest (n := length)) as (mid & rest' & -> & Hmid); [lia|].
  assert (Hsub : subarray u (byteLength (wire (st_labels s)) + 1)
                   (byteLength (wire (st_labels s)) + 1 + length) = mid).
  { rewrite Hu.
    replace (wire (st_labels s) ++ b :: mid ++ rest')
      with ((wire (st_labels s) ++ [b]) ++ mid ++ rest')
      by (rewrite <- app_assoc; reflexivity).
    replace (byteLength (wire (st_labels s)) + 1)
      with (byteLength (wire (st_labels s) ++ [b]))
      by (rewrite byteLength_app; reflexivity).
    rewrite <- Hmid. apply subarray_app. }
  assert (Hwire : wire (st_labels s ++ [mid]) = wire (st_labels s) ++ b :: mid).
  { rewrite wire_app. simpl. rewrite app_nil_r, Hmid, <- Hb, toUint8_u8.
    reflexivity. }
  unfold inv. cbn [st_labels st_offset st_nameSize].
  rewrite Hsub in *. unfold Uint8Array in *. rewrite Hwire.
  repeat split.
  - exists rest'. rewrite Hu, <- app_assoc. reflexivity.
  - rewrite byteLength_app, byteLength_cons. lia.
  - rewrite labelBytes_app. simpl. lia.
  - apply Forall_app. split; auto.
Qed.

(** The state the loop breaks in sits on a zero byte. *)
Lemma body_breaks u s r :
  body u (viewOf u) s = Break r ->
  r = s /\ getUint8 u (st_offset s) = Right 0.
Proof.
  unfold body, viewOf.
  destruct (getUint8 u (st_offset s)) as [e|length]; [discriminate|].
  destruct (length =? 0) eqn:Hz.
  - intros H. inversion H. apply Z.eqb_eq in Hz. now subst.
  - destruct (_ >? byteLength u); [discriminate|].
    destruct (decodeLabel _); [discriminate|].
    destruct (_ >? 255); discriminate.
Qed.

Lemma body_terminator u s :
  getUint8 u (st_offset s) = Right 0 -> body u (viewOf u) s = Break s.
Proof. intros H. unfold body, viewOf. now rewrite H. Qed.

Lemma decode_Right u n :
  NameFromUint8Array.decode u = Some (Right n) ->
  (exists rest, u = wire (labels n) ++ x00 :: rest)
  /\ encodedByteLength n = byteLength (wire (labels n))
  /\ Forall isLabel (labels n).
Proof.
  unfold NameFromUint8Array.decode.
  destruct (byteLength u <? 2); [discriminate|].
  intros H. apply andThen_Right in H. destruct H as (s & Hloop & Hn).
  inversion Hn; subst n; clear Hn. simpl.
  apply while_loop_invariant with (P := inv u) in Hloop;
    [ | intros; eapply inv_step; eauto | apply inv_init ].
  destruct Hloop as (s' & ([rest Hu] & Hoff & _ & Hall) & Hbreak).
  apply body_breaks in Hbreak. destruct Hbreak as [-> Hget].
  repeat split; auto.
  rewrite Hoff, Hu in Hget.
  pose proof (getUint8_Right _ _ Hget) as [Hin _].
  rewrite byteLength_app in Hin.
  destruct rest as [|b rest]; [change (byteLength []) with 0 in Hin; lia|].
  rewrite getUint8_app in Hget. inversion Hget as [Hb].
  exists rest. rewrite Hu. f_equal. f_equal.
  rewrite <- (toUint8_u8 b), Hb. reflexivity.
Qed.

End ArrayLoop.

(** The standalone decoder always returns. *)
Lemma decodeNameFromUint8Array_total u :
  exists r, decodeNameFromUint8Array u = Some r.
Proof.
  unfold decodeNameFromUint8Array. apply andThen_Some.
  unfold NameFromUint8Array.decode. destruct (_ <? 2); [discriminate|].
  intros H.
  assert (Hends := @ArrayLoop.array_loop_ends u NameFromUint8Array.init).
  destruct (andThen_Some
              (fun s => Right {| labels := NameFromUint8Array.st_labels s;
                                 encodedByteLength :=
                                   NameFromUint8Array.st_offset s |}
                        : ParseResult Name)
              (Hends ltac:(unfold NameFromUint8Array.fuel, byteLength; simpl; lia)))
    as [x Hx].
  congruence.
Qed.

Lemma decodeNameFromUint8Array_Right u n :
  decodeNameFromUint8Array u = Some (Right n) ->
  NameFromUint8Array.decode u = Some (Right n) /\ Name_validate n = Right n.
Proof.
  unfold decodeNameFromUint8Array. intros H.
  apply andThen_Right in H. destruct H as (a & Hdec & Hval).
  pose proof (proj1 (Name_validate_Right a n) Hval) as [-> _]. auto.
Qed.

Lemma decodeNameFromDnsPacketCursor_Right cursor n :
  decodeNameFromDnsPacketCursor cursor = Some (Right n) ->
  NameFromDnsPacketCursor.decode cursor = Some (Right n)
  /\ Name_validate n = Right n.
Proof.
  unfold decodeNameFromDnsPacketCursor. intros H.
  apply andThen_Right in H. destruct H as (a & Hdec & Hval).
  pose proof (proj1 (Name_validate_Right a n) Hval) as [-> _]. auto.
Qed.

(** C3, as the code has it. Whenever the standalone decoder succeeds, the
    buffer starts with the literal form of the decoded labels followed by the
    zero terminator, and the returned [encodedByteLength] is the offset of
    that terminator byte itself: the literal encoding length without the
    terminator, one less than the offset of the byte that follows it. *)
Theorem decodeNameFromUint8Array_encodedByteLength u n :
  decodeNameFromUint8Array u = Some (Right n) ->
  (exists rest, u = wire (labels n) ++ x00 :: rest)
  /\ encodedByteLength n = byteLength (wire (labels n))
  /\ getUint8 u (encodedByteLength n) = Right 0.
Proof.
  intros H. apply decodeNameFromUint8Array_Right in H. destruct H as [H _].
  apply ArrayLoop.decode_Right in H. destruct H as ([rest Hu] & Hlen & _).
  split; [eauto|]. split; [assumption|].
  rewrite Hlen, Hu. apply getUint8_app.
Qed.

Lemma decodeNameFromUint8Array_encodedByteLength_witness :
  getUint8 (ofList [1; 97; 0]) 2 = Right 0.
Proof.
  apply (@decodeNameFromUint8Array_encodedByteLength
           (ofList [1; 97; 0])
           {| labels := [ofList [97]]; encodedByteLength := 2 |}).
  reflexivity.
Defined.

(** C3, as stated, fails on the three-byte buffer [01 61 00]: the terminator
    is at offset 2, the byte after it would be at offset 3, and the decoder
    returns 2. *)
Lemma decodeNameFromUint8Array_not_past_terminator :
  decodeNameFromUint8Array (ofList [1; 97; 0])
  = Some (Right {| labels := [ofList [97]]; encodedByteLength := 2 |})
  /\ at_ (ofList [1; 97; 0]) 2 = Some 0
  /\ byteLength (ofList [1; 97; 0]) = 2 + 1
  /\ ~ (forall u n,
          decodeNameFromUint8Array u = Some (Right n) ->
          exists rest,
            u = wire (labels n) ++ x00 :: rest
            /\ encodedByteLength n = byteLength (wire (labels n) ++ [x00])).
Proof.
  split; [reflexivity|]. split; [reflexivity|]. split; [reflexivity|].
  intros H.
  destruct (H (ofList [1; 97; 0])
              {| labels := [ofList [97]]; encodedByteLength := 2 |}
              eq_refl) as (rest & _ & Hlen).
  vm_compute in Hlen. discriminate.
Qed.

(** C9. A name returned by either decoder has at least one label and an
    [encodedByteLength] between 1 and 255; a buffer, or a window at the
    cursor, that starts with the zero terminator is not decoded to a name
    without labels but fails. *)
Theorem decoded_Name_has_labels :
  (forall u n,
      decodeNameFromUint8Array u = Some (Right n) ->
      labels n <> [] /\ 1 <= encodedByteLength n <= 255)
  /\ (forall cursor n,
         decodeNameFromDnsPacketCursor cursor = Some (Right n) ->
         labels n <> [] /\ 1 <= encodedByteLength n <= 255)
  /\ (forall rest,
         exists issue,
           decodeNameFromUint8Array (x00 :: rest) = Some (Left issue))
  /\ (forall cursor rest,
         NameFromDnsPacketCursor.window cursor = x00 :: rest ->
         exists issue,
           decodeNameFromDnsPacketCursor cursor = Some (Left issue)).
Proof.
  split; [|split; [|split]].
  - intros u n H. apply decodeNameFromUint8Array_Right in H.
    destruct H as [_ H]. apply Name_validate_Right in H. tauto.
  - intros cursor n H. apply decodeNameFromDnsPacketCursor_Right in H.
    destruct H as [_ H]. apply Name_validate_Right in H. tauto.
  - intros rest. unfold decodeNameFromUint8Array, NameFromUint8Array.decode.
    destruct (_ <? 2); [simpl; eauto|].
    unfold NameFromUint8Array.fuel. rewrite while_loop_S.
    rewrite ArrayLoop.body_terminator by reflexivity.
    exists (InvalidName 0). reflexivity.
  - intros cursor rest Hw.
    unfold decodeNameFromDnsPacketCursor, NameFromDnsPacketCursor.decode.
    destruct (_ <? 2); [simpl; eauto|].
    replace (NameFromDnsPacketCursor.fuel cursor)
      with (S (length (NameFromDnsPacketCursor.window cursor)
               + length (cursor_uint8Array cursor) + 2))
      by (unfold NameFromDnsPacketCursor.fuel; lia).
    rewrite while_loop_S.
    rewrite CursorLoop.body_ends
      by (simpl; unfold viewOf; rewrite Hw; reflexivity).
    exists (InvalidName 0). reflexivity.
Qed.

Lemma decoded_Name_has_labels_witness :
  labels {| labels := [ofList [97]]; encodedByteLength := 2 |} <> []
  /\ 1 <= encodedByteLength
            {| labels := [ofList [97]]; encodedByteLength := 2 |} <= 255.
Proof.
  apply (proj1 decoded_Name_has_labels (ofList [1; 97; 0])
           {| labels := [ofList [97]]; encodedByteLength := 2 |}).
  reflexivity.
Defined.

(** ** The encoder *)

Module Encoder.
Import NameFromUint8Array.

Lemma encode_size_ok ls : forall a,
  Forall isLabel ls -> a + labelBytes ls <= 255 ->
  encode_size ls a = Right (a + labelBytes ls).
Proof.
  induction ls as [|l ls IH]; intros a Hall Hle; simpl.
  - f_equal. lia.
  - apply Forall_cons_iff in Hall. destruct Hall as [Hl Hls].
    unfold encodeLabelFromUnknown. rewrite Hl. simpl bind.
    pose proof (labelBytes_nonneg ls). simpl labelBytes in Hle.
    replace (a + byteLength l >? 255) with false by (symmetry; lia).
    rewrite IH by (auto; lia). f_equal. lia.
Qed.

Lemma setUint8_at pre b rest v :
  setUint8 (pre ++ b :: rest) (byteLength pre) v
  = Right (pre ++ toUint8 v :: rest).
Proof.
  unfold setUint8. rewrite byteLength_app, byteLength_cons.
  pose proof (byteLength_nonneg pre). pose proof (byteLength_nonneg rest).
  replace ((0 <=? byteLength pre)
           && (byteLength pre <? byteLength pre + (1 + byteLength rest)))
    with true by (symmetry; apply andb_true_iff; split; lia).
  unfold byteLength. rewrite Nat2Z.id.
  rewrite firstn_app, firstn_all, Nat.sub_diag. simpl firstn.
  rewrite app_nil_r.
  rewrite skipn_app, skipn_all2 by lia.
  replace (length pre + 1 - length pre)%nat with 1%nat by lia.
  reflexivity.
Qed.

Lemma uint8ArraySet_at pre mid rest source :
  length mid = length source ->
  uint8ArraySet (pre ++ mid ++ rest) source (byteLength pre)
  = Right (pre ++ source ++ rest).
Proof.
  intros Hlen. unfold uint8ArraySet. rewrite !byteLength_app.
  pose proof (byteLength_nonneg pre). pose proof (byteLength_nonneg rest).
  assert (Hz : byteLength mid = byteLength source)
    by (unfold byteLength; now rewrite Hlen).
  replace ((0 <=? byteLength pre)
           && (byteLength pre + byteLength source
               <=? byteLength pre + (byteLength mid + byteLength rest)))
    with true by (symmetry; apply andb_true_iff; split; lia).
  unfold byteLength. rewrite Nat2Z.id.
  rewrite firstn_app, firstn_all, Nat.sub_diag. simpl firstn.
  rewrite app_nil_r.
  rewrite skipn_app, skipn_all2 by lia.
  replace (length pre + length source - length pre)%nat
    with (length mid) by lia.
  rewrite skipn_app, skipn_all, Nat.sub_diag. reflexivity.
Qed.

Lemma encode_write_ok ls : forall pre k,
  encode_write ls (pre ++ repeat x00 (length (wire ls) + k)) (byteLength pre)
  = Right (pre ++ wire ls ++ repeat x00 k,
           byteLength pre + byteLength (wire ls)).
Proof.
  induction ls as [|l ls IH]; intros pre k.
  - simpl. f_equal. f_equal. change (byteLength []) with 0. lia.
  - rewrite wire_cons.
    replace (length ((toUint8 (byteLength l) :: l) ++ wire ls) + k)%nat
      with (S (length l + (length (wire ls) + k)))
      by (rewrite length_app; simpl; lia).
    cbn [encode_write repeat]. rewrite repeat_app.
    rewrite setUint8_at. simpl bind.
    replace (pre ++ toUint8 (byteLength l)
                 :: repeat x00 (length l) ++ repeat x00 (length (wire ls) + k))
      with ((pre ++ [toUint8 (byteLength l)])
              ++ repeat x00 (length l) ++ repeat x00 (length (wire ls) + k))
      by (rewrite <- app_assoc; reflexivity).
    replace (byteLength pre + 1)
      with (byteLength (pre ++ [toUint8 (byteLength l)]))
      by (rewrite byteLength_app; reflexivity).
    rewrite uint8ArraySet_at by apply repeat_length. simpl bind.
    replace ((pre ++ [toUint8 (byteLength l)])
               ++ l ++ repeat x00 (length (wire ls) + k))
      with ((pre ++ toUint8 (byteLength l) :: l)
              ++ repeat x00 (length (wire ls) + k))
      by (rewrite <- !app_assoc; reflexivity).
    replace (byteLength (pre ++ [toUint8 (byteLength l)]) + byteLength l)
      with (byteLength (pre ++ toUint8 (byteLength l) :: l))
      by (rewrite !byteLength_app, !byteLength_cons;
          change (byteLength []) with 0; lia).
    rewrite IH. f_equal. f_equal.
    + rewrite <- !app_assoc. reflexivity.
    + rewrite !byteLength_app, !byteLength_cons. lia.
Qed.

(** The encoder emits the literal form of the labels and one zero byte. *)
Lemma encode_ok n :
  Forall isLabel (labels n) -> labels n <> [] ->
  byteLength (wire (labels n)) + 1 <= 255 ->
  encode n = Right (wire (labels n) ++ [x00]).
Proof.
  intros Hall Hne Hle. unfold encode.
  assert (Hcount : 1 <= Z.of_nat (length (labels n)))
    by (destruct (labels n); [congruence | simpl length; lia]).
  replace (Z.of_nat (length (labels n)) =? 0) with false by (symmetry; lia).
  rewrite wire_length in Hle.
  rewrite encode_size_ok by (auto; lia). simpl bind.
  replace (alloc (Z.of_nat (length (labels n)) + 1 + labelBytes (labels n)))
    with ([] ++ repeat x00 (length (wire (labels n)) + 1)).
  2:{ unfold alloc. simpl app. f_equal.
      pose proof (wire_length (labels n)) as Hw. unfold byteLength in Hw. lia. }
  change 0 with (byteLength []) at 1.
  rewrite encode_write_ok. simpl bind. simpl fst. simpl snd.
  rewrite setUint8_at. reflexivity.
Qed.

End Encoder.

(** Decoding the literal form of a name. *)
Lemma decode_wire ls :
  Forall isLabel ls -> ls <> [] -> byteLength (wire ls) + 1 <= 255 ->
  decodeNameFromUint8Array (wire ls ++ [x00])
  = Some (Right {| labels := ls; encodedByteLength := byteLength (wire ls) |}).
Proof.
  intros Hall Hne Hle.
  pose proof (wire_length ls) as Hw. pose proof (labelBytes_nonneg ls) as Hnn.
  assert (Hls : (1 <= length ls)%nat) by (destruct ls; [congruence|simpl; lia]).
  assert (Hlab : 1 <= labelBytes ls).
  { destruct ls as [|l ls']; [congruence|].
    apply Forall_cons_iff in Hall. destruct Hall as [Hl _].
    apply Label_length in Hl. simpl.
    pose proof (labelBytes_nonneg ls'). lia. }
  unfold decodeNameFromUint8Array, NameFromUint8Array.decode.
  rewrite byteLength_app. change (byteLength [x00]) with 1.
  replace (byteLength (wire ls) + 1 <? 2) with false by (symmetry; lia).
  replace (NameFromUint8Array.fuel (wire ls ++ [x00]))
    with (length ls + S (length (wire ls ++ [x00]) - length ls))%nat.
  2:{ unfold NameFromUint8Array.fuel. rewrite length_app.
      unfold byteLength in Hw. simpl length. lia. }
  rewrite ArrayLoop.run_labels with (pre := []) (rest := [x00]);
    [ | reflexivity | reflexivity | assumption | simpl; lia ].
  rewrite while_loop_S.
  rewrite ArrayLoop.body_terminator
    by (simpl; rewrite getUint8_app; reflexivity).
  simpl andThen. f_equal.
  apply Name_validate_Right. simpl. repeat split; auto; lia.
Qed.

(** C4, as the code has it. For every name [N] that satisfies the [Name]
    schema, encoding succeeds with between 1 and 255 bytes, and decoding
    those bytes returns the labels of [N] together with an
    [encodedByteLength] of one less than the number of encoded bytes (the
    offset of the terminator).  The [encodedByteLength] of [N] itself plays no
    part: the round trip returns [N] exactly when it already has that value. *)
Theorem decode_encode_Name (N : Name) :
  Name_validate N = Right N ->
  exists bytes,
    encodeNameFromUint8Array N = Right bytes
    /\ 1 <= byteLength bytes <= 255
    /\ decodeNameFromUint8Array bytes
       = Some (Right {| labels := labels N;
                        encodedByteLength := byteLength bytes - 1 |})
    /\ (decodeNameFromUint8Array bytes = Some (Right N)
        <-> encodedByteLength N = byteLength bytes - 1).
Proof.
  intros Hval.
  pose proof (proj1 (Name_validate_Right N N) Hval)
    as (_ & Hall & Hne & Hle & Hebl).
  exists (wire (labels N) ++ [x00]).
  assert (Hlen : byteLength (wire (labels N) ++ [x00]) - 1
                 = byteLength (wire (labels N))).
  { rewrite byteLength_app. change (byteLength [x00]) with 1. lia. }
  pose proof (byteLength_nonneg (wire (labels N))).
  split; [|split; [|split]].
  - unfold encodeNameFromUint8Array. rewrite Hval. simpl bind.
    now apply Encoder.encode_ok.
  - lia.
  - rewrite Hlen. now apply decode_wire.
  - rewrite Hlen, decode_wire by assumption. split.
    + intros H'. inversion H' as [HN]. rewrite <- HN at 1. reflexivity.
    + intros <-. destruct N; reflexivity.
Qed.

Lemma decode_encode_Name_witness :
  exists bytes,
    encodeNameFromUint8Array
      {| labels := [ofList [97]]; encodedByteLength := 2 |} = Right bytes
    /\ decodeNameFromUint8Array bytes
       = Some (Right {| labels := [ofList [97]]; encodedByteLength := 2 |}).
Proof.
  destruct (@decode_encode_Name
              {| labels := [ofList [97]]; encodedByteLength := 2 |} eq_refl)
    as (bytes & Henc & _ & _ & Hiff).
  exists bytes. split; [exact Henc|].
  apply Hiff. vm_compute in Henc. inversion Henc. reflexivity.
Defined.

(** C4, as stated, fails on the name with the one label [a] and
    [encodedByteLength] 3, the number of bytes of its encoding [01 61 00]:
    the name satisfies the schema, and the round trip returns it with
    [encodedByteLength] 2. *)
Lemma decode_encode_Name_changes_length :
  Name_validate {| labels := [ofList [97]]; encodedByteLength := 3 |}
  = Right {| labels := [ofList [97]]; encodedByteLength := 3 |}
  /\ encodeNameFromUint8Array
       {| labels := [ofList [97]]; encodedByteLength := 3 |}
     = Right (ofList [1; 97; 0])
  /\ decodeNameFromUint8Array (ofList [1; 97; 0])
     = Some (Right {| labels := [ofList [97]]; encodedByteLength := 2 |})
  /\ decodeNameFromUint8Array (ofList [1; 97; 0])
     <> Some (Right {| labels := [ofList [97]]; encodedByteLength := 3 |}).
Proof.
  split; [reflexivity|]. split; [reflexivity|]. split; [reflexivity|].
  vm_compute. discriminate.
Qed.

(** ** The size limit *)

Lemma subarray_length_le u b e :
  0 <= b -> b <= e -> byteLength (subarray u b e) <= e - b.
Proof.
  intros Hb Hbe. unfold subarray, relativeIndex.
  replace (b <? 0) with false by (symmetry; lia).
  replace (e <? 0) with false by (symmetry; lia).
  unfold byteLength. rewrite length_firstn, length_skipn. lia.
Qed.

Module CursorWindow.
Import NameFromDnsPacketCursor.

Lemma window_length cursor : byteLength (window cursor) <= 255.
Proof.
  unfold window, subarray, relativeIndex, MAX_NAME_BYTE_LENGTH.
  unfold byteLength. rewrite length_firstn, length_skipn.
  destruct (cursor_offset cursor <? 0) eqn:E1;
    destruct (cursor_offset cursor + 255 <? 0) eqn:E2; lia.
Qed.

(** An iteration that fails on the size limit has decoded a label that
    fits the view. *)
Lemma body_NameTooLong cursor w s :
  body cursor w s = Fail NameTooLong ->
  exists length,
    getUint8 (st_dataView s) (st_offset s) = Right length
    /\ 1 <= length
    /\ st_offset s + 1 + length <= byteLength (st_dataView s)
    /\ st_nameSize s
       + byteLength (subarray w (st_offset s + 1) (st_offset s + 1 + length))
       > 255.
Proof.
  unfold body.
  destruct (getUint8 (st_dataView s) (st_offset s)) as [e|byte] eqn:Hget.
  - intros H. inversion H; subst.
    unfold getUint8 in Hget. destruct (_ && _); discriminate.
  - pose proof (getUint8_Right _ _ Hget) as [Hoff Hbyte].
    destruct (byteIsPointer byte).
    + destruct (st_encounteredPointer s); [discriminate|].
      destruct (getUint16 (st_dataView s) (st_offset s)) as [e|v] eqn:H16;
        [|discriminate].
      intros H. inversion H; subst. unfold getUint16 in H16.
      rewrite Hget in H16. simpl in H16.
      unfold getUint8 in H16. destruct (_ && _); discriminate.
    + destruct (byte =? 0) eqn:Hz; [discriminate|].
      destruct (_ >? byteLength (st_dataView s)) eqn:Hfit; [discriminate|].
      unfold decodeLabel.
      destruct (Label_filter _); [discriminate|].
      destruct (_ >? 255) eqn:Hsize; [|discriminate].
      intros _. exists byte. repeat split; auto; lia.
Qed.

(** An iteration that reads a label and goes on. *)
Lemma body_label_step cursor w s s' :
  body cursor w s = Continue s' -> readsPointer s = false ->
  exists length,
    getUint8 (st_dataView s) (st_offset s) = Right length
    /\ 1 <= length
    /\ st_offset s + 1 + length <= byteLength (st_dataView s)
    /\ st_offset s' = st_offset s + (length + 1)
    /\ st_nameSize s'
       = st_nameSize s
         + byteLength (subarray w (st_offset s + 1) (st_offset s + 1 + length))
    /\ st_nameSize s' <= 255.
Proof.
  unfold body, readsPointer.
  destruct (getUint8 (st_dataView s) (st_offset s)) as [e|byte] eqn:Hget;
    [discriminate|].
  pose proof (getUint8_Right _ _ Hget) as [Hoff Hbyte].
  intros H Hptr. rewrite Hptr in H.
  destruct (byte =? 0) eqn:Hz; [discriminate|].
  destruct (_ >? byteLength (st_dataView s)) eqn:Hfit; [discriminate|].
  unfold decodeLabel in H.
  destruct (Label_filter _); [discriminate|].
  destruct (_ >? 255) eqn:Hsize; [discriminate|].
  inversion H; subst; clear H. simpl.
  exists byte. repeat split; auto; lia.
Qed.

Lemma literal_init cursor : literal cursor (init cursor).
Proof. intros _. simpl. split; [reflexivity | lia]. Qed.

Lemma literal_step cursor s s' :
  literal cursor s ->
  body cursor (window cursor) s = Continue s' ->
  literal cursor s'.
Proof.
  intros Hlit Hstep Hep'.
  pose proof (CursorLoop.body_Continue _ _ _ Hstep)
    as [(_ & _ & Hep1 & _) | (Hrd & Hep & Hdv & _)]; [congruence|].
  rewrite Hep' in Hep. symmetry in Hep.
  destruct (Hlit Hep) as [Hw Hsize].
  destruct (body_label_step _ _ _ Hstep Hrd)
    as (length & _ & Hlen & Hfit & Hoff & Hname & _).
  split; [congruence|].
  pose proof (@subarray_length_le (window cursor) (st_offset s + 1)
                (st_offset s + 1 + length) ltac:(lia) ltac:(lia)).
  pose proof (byteLength_nonneg
                (subarray (window cursor) (st_offset s + 1)
                   (st_offset s + 1 + length))).
  lia.
Qed.

Lemma literal_within cursor s :
  literal cursor s -> st_encounteredPointer s = false ->
  body cursor (window cursor) s <> Fail NameTooLong.
Proof.
  intros Hlit Hep Hfail. destruct (Hlit Hep) as [Hw Hsize].
  apply body_NameTooLong in Hfail.
  destruct Hfail as (length & _ & Hlen & Hfit & Hover).
  rewrite Hw in Hfit. pose proof (window_length cursor).
  pose proof (@subarray_length_le (window cursor) (st_offset s + 1)
                (st_offset s + 1 + length) ltac:(lia) ltac:(lia)).
  lia.
Qed.

(** The size limit is reached only on a run that has followed a pointer. *)
Lemma NameTooLong_after_pointer cursor : forall n s,
  literal cursor s -> st_encounteredPointer s = false ->
  while_loop (body cursor (window cursor)) n s = Some (Left NameTooLong) ->
  pointersFollowed cursor n s = 1%nat.
Proof.
  induction n as [|n IH]; intros s Hlit Hep; [discriminate|].
  rewrite while_loop_S. simpl pointersFollowed.
  pose proof (literal_within Hlit Hep) as Hnot.
  destruct (body cursor (window cursor) s) as [s'|r|e] eqn:Hstep.
  - intros Hrun.
    pose proof (CursorLoop.body_Continue _ _ _ Hstep)
      as [(Hrd & _ & Hep1 & _) | (Hrd & Hep1 & _)]; rewrite Hrd.
    + rewrite CursorLoop.pointersFollowed_after by assumption. reflexivity.
    + rewrite IH; auto.
      * eapply literal_step; eauto.
      * congruence.
  - discriminate.
  - intros H. inversion H; subst. congruence.
Qed.

End CursorWindow.

Lemma body_size_checked u s length label :
  getUint8 u (NameFromUint8Array.st_offset s) = Right length ->
  length <> 0 ->
  NameFromUint8Array.st_offset s + 1 + length <= byteLength u ->
  decodeLabel
    (subarray u (NameFromUint8Array.st_offset s + 1)
       (NameFromUint8Array.st_offset s + 1 + length)) = Right label ->
  NameFromUint8Array.st_nameSize s + byteLength label > 255 ->
  NameFromUint8Array.body u (viewOf u) s = Fail NameTooLong.
Proof.
  intros Hget Hnz Hfit Hlabel Hover.
  unfold NameFromUint8Array.body, viewOf. rewrite Hget.
  replace (length =? 0) with false by (symmetry; lia).
  replace (NameFromUint8Array.st_offset s + 1 + length >? byteLength u)
    with false by (symmetry; lia).
  rewrite Hlabel.
  now replace (NameFromUint8Array.st_nameSize s + byteLength label >? 255)
    with true by (symmetry; lia).
Qed.

Lemma body_size_checked_cursor cursor w s length label :
  getUint8 (NameFromDnsPacketCursor.st_dataView s)
    (NameFromDnsPacketCursor.st_offset s) = Right length ->
  byteIsPointer length = false ->
  length <> 0 ->
  NameFromDnsPacketCursor.st_offset s + 1 + length
  <= byteLength (NameFromDnsPacketCursor.st_dataView s) ->
  decodeLabel
    (subarray w (NameFromDnsPacketCursor.st_offset s + 1)
       (NameFromDnsPacketCursor.st_offset s + 1 + length)) = Right label ->
  NameFromDnsPacketCursor.st_nameSize s + byteLength label > 255 ->
  NameFromDnsPacketCursor.body cursor w s = Fail NameTooLong.
Proof.
  intros Hget Hptr Hnz Hfit Hlabel Hover.
  unfold NameFromDnsPacketCursor.body. rewrite Hget, Hptr.
  replace (length =? 0) with false by (symmetry; lia).
  replace (NameFromDnsPacketCursor.st_offset s + 1 + length
           >? byteLength (NameFromDnsPacketCursor.st_dataView s))
    with false by (symmetry; lia).
  rewrite Hlabel.
  now replace (NameFromDnsPacketCursor.st_nameSize s + byteLength label >? 255)
    with true by (symmetry; lia).
Qed.

(** A literal name that crosses the limit at the label [l], after the labels
    [ls], whatever follows. *)
Lemma decode_crossing ls l rest :
  Forall isLabel ls -> isLabel l ->
  labelBytes ls <= 255 -> labelBytes ls + byteLength l > 255 ->
  decodeNameFromUint8Array (wire ls ++ (toUint8 (byteLength l) :: l) ++ rest)
  = Some (Left NameTooLong).
Proof.
  intros Hall Hl Hle Hover.
  pose proof (Label_length Hl) as Hlen.
  pose proof (wire_length ls) as Hw. pose proof (labelBytes_nonneg ls) as Hnn.
  pose proof (byteLength_nonneg rest) as Hrest.
  set (u := wire ls ++ (toUint8 (byteLength l) :: l) ++ rest).
  assert (Hu : byteLength u
               = byteLength (wire ls) + 1 + byteLength l + byteLength rest).
  { unfold u. rewrite !byteLength_app, byteLength_cons. lia. }
  unfold decodeNameFromUint8Array, NameFromUint8Array.decode.
  replace (byteLength u <? 2) with false by (symmetry; lia).
  replace (NameFromUint8Array.fuel u)
    with (length ls + S (length u - length ls))%nat
    by (unfold NameFromUint8Array.fuel; unfold byteLength in *; lia).
  rewrite ArrayLoop.run_labels
    with (pre := []) (rest := (toUint8 (byteLength l) :: l) ++ rest);
    [ | reflexivity | reflexivity | assumption | simpl; lia ].
  rewrite while_loop_S.
  rewrite ArrayLoop.body_label with (pre := wire ls) (l := l) (rest := rest);
    [ | reflexivity | simpl; lia | lia ].
  unfold decodeLabel. rewrite Hl. simpl NameFromUint8Array.st_nameSize.
  now replace (labelBytes ls + byteLength l >? 255) with true
    by (symmetry; lia).
Qed.

Lemma Name_validate_not_NameTooLong n : Name_validate n <> Left NameTooLong.
Proof.
  unfold Name_validate.
  destruct (Name_labels_each (labels n)) as [issue|] eqn:Each.
  - intros H. inversion H; subst.
    clear H. induction (labels n) as [|l ls IH]; simpl in Each; [discriminate|].
    destruct (Label_filter l); [discriminate | auto].
  - unfold Name_labels_filter. destruct (_ =? 0); [discriminate|].
    destruct (_ >? 255); [discriminate|].
    destruct (between 1 255 _); discriminate.
Qed.

(** C6, on two literal names read at offset 0. Each has five labels of
    letters, and the fifth is the first to bring the running total of label
    bytes above 255.  The standalone decoder fails on both with
    [NameTooLong] at that label, as the claim says.  The packet-aware decoder
    does not: it reads from the window of 255 bytes cut at the cursor, so on
    labels of 63, 63, 63, 61 and 6 bytes the fifth label overruns the window
    and the decode fails with [LabelOverrun] at offset 254, and on labels of
    63, 63, 63, 62 and 6 bytes the window ends before the fifth length byte
    and the decode fails with [BufferUnderrun] at offset 255. *)
Theorem NameTooLong_lost_in_window :
  let first := [letters 63; letters 63; letters 63; letters 61] in
  let second := [letters 63; letters 63; letters 63; letters 62] in
  let packet1 := wire (first ++ [letters 6]) ++ [x00] in
  let packet2 := wire (second ++ [letters 6]) ++ [x00] in
  Forall isLabel (first ++ [letters 6])
  /\ Forall isLabel (second ++ [letters 6])
  /\ labelBytes first <= 255 < labelBytes (first ++ [letters 6])
  /\ labelBytes second <= 255 < labelBytes (second ++ [letters 6])
  /\ decodeNameFromUint8Array packet1 = Some (Left NameTooLong)
  /\ decodeNameFromUint8Array packet2 = Some (Left NameTooLong)
  /\ decodeNameFromDnsPacketCursor
       {| cursor_uint8Array := packet1; cursor_offset := 0 |}
     = Some (Left (LabelOverrun 254))
  /\ decodeNameFromDnsPacketCursor
       {| cursor_uint8Array := packet2; cursor_offset := 0 |}
     = Some (Left (BufferUnderrun 255)).
Proof.
  cbv zeta.
  split; [|split; [|split; [|split; [|split; [|split; [|split]]]]]].
  - repeat (apply Forall_cons; [vm_compute; reflexivity|]). apply Forall_nil.
  - repeat (apply Forall_cons; [vm_compute; reflexivity|]). apply Forall_nil.
  - vm_compute. split; [discriminate | reflexivity].
  - vm_compute. split; [discriminate | reflexivity].
  - vm_compute. reflexivity.
  - vm_compute. reflexivity.
  - vm_compute. reflexivity.
  - vm_compute. reflexivity.
Qed.

(** ** No pointers in the standalone decoder *)

Lemma run_to_high_byte u ls : forall pre b rest s k,
  u = pre ++ wire ls ++ b :: rest ->
  NameFromUint8Array.st_offset s = byteLength pre ->
  Forall isLabel ls ->
  192 <= u8 b ->
  exists issue,
    while_loop (NameFromUint8Array.body u (viewOf u)) (S (length ls) + k) s
    = Some (Left issue)
    /\ literalFailure issue = true.
Proof.
  induction ls as [|l ls IH]; intros pre b rest s k Hu Hoff Hall Hb.
  - simpl app in Hu. simpl Nat.add. rewrite while_loop_S.
    unfold NameFromUint8Array.body, viewOf.
    rewrite Hoff, Hu, getUint8_app. rewrite <- Hu.
    replace (u8 b =? 0) with false by (symmetry; lia).
    destruct (byteLength pre + 1 + u8 b >? byteLength u) eqn:Hfit.
    + eexists. split; reflexivity.
    + assert (Hlen : byteLength
                       (subarray u (byteLength pre + 1)
                          (byteLength pre + 1 + u8 b)) = u8 b).
      { pose proof (byteLength_nonneg pre).
        rewrite subarray_length; lia. }
      unfold decodeLabel, Label_filter. rewrite Hlen.
      replace ((u8 b =? 0) || (u8 b >? 63)) with true
        by (symmetry; apply orb_true_iff; right; lia).
      eexists. split; reflexivity.
  - apply Forall_cons_iff in Hall. destruct Hall as [Hl Hls].
    pose proof (Label_length Hl) as Hlen.
    simpl length. simpl Nat.add. rewrite while_loop_S.
    rewrite ArrayLoop.body_label
      with (pre := pre) (l := l) (rest := wire ls ++ b :: rest);
      [ | rewrite Hu, wire_cons, <- app_assoc; reflexivity | assumption | lia ].
    unfold decodeLabel. rewrite Hl.
    destruct (_ >? 255).
    + eexists. split; reflexivity.
    + apply IH with (pre := pre ++ toUint8 (byteLength l) :: l)
                    (b := b) (rest := rest); auto.
      * rewrite Hu, wire_cons, <- !app_assoc. reflexivity.
      * simpl. rewrite Hoff, byteLength_app, byteLength_cons. lia.
Qed.

(** C10. The standalone decoder never treats a byte as a compression
    pointer.  When, after any number of literal labels, the length byte has
    its top two bits set, the decode fails with [LabelOverrun], [InvalidLabel]
    or [NameTooLong]; and every iteration that goes on has taken the bytes
    that follow the length byte, as many as it says, as the label, and moved
    the read offset just past them, never anywhere else. *)
Theorem decodeNameFromUint8Array_no_pointer :
  (forall ls b rest,
      Forall isLabel ls ->
      byteIsPointer (u8 b) = true ->
      2 <= byteLength (wire ls ++ b :: rest) ->
      exists issue,
        decodeNameFromUint8Array (wire ls ++ b :: rest) = Some (Left issue)
        /\ literalFailure issue = true)
  /\ (forall u s s',
         NameFromUint8Array.body u (viewOf u) s = Continue s' ->
         exists length,
           getUint8 u (NameFromUint8Array.st_offset s) = Right length
           /\ NameFromUint8Array.st_offset s'
              = NameFromUint8Array.st_offset s + (length + 1)
           /\ NameFromUint8Array.st_labels s'
              = NameFromUint8Array.st_labels s
                  ++ [subarray u (NameFromUint8Array.st_offset s + 1)
                        (NameFromUint8Array.st_offset s + 1 + length)]
           /\ byteLength
                (subarray u (NameFromUint8Array.st_offset s + 1)
                   (NameFromUint8Array.st_offset s + 1 + length)) = length).
Proof.
  split.
  - intros ls b rest Hall Hptr Hlen.
    rewrite byteIsPointer_u8 in Hptr.
    set (u := wire ls ++ b :: rest) in *.
    unfold decodeNameFromUint8Array, NameFromUint8Array.decode.
    replace (byteLength u <? 2) with false by (symmetry; lia).
    assert (Hfuel : (length ls < length u)%nat).
    { pose proof (wire_length ls) as Hw. pose proof (labelBytes_nonneg ls).
      unfold u. rewrite length_app. simpl length.
      unfold byteLength in Hw. lia. }
    replace (NameFromUint8Array.fuel u)
      with (S (length ls) + (length u - length ls))%nat
      by (unfold NameFromUint8Array.fuel; lia).
    destruct (@run_to_high_byte u ls [] b rest NameFromUint8Array.init
                (length u - length ls)%nat)
      as (issue & Hrun & Hkind); auto; try lia.
    rewrite Hrun. simpl. eauto.
  - intros u s s' Hstep.
    apply ArrayLoop.body_goes_on in Hstep.
    destruct Hstep as (length & label & Hget & Hlen & Hfit & -> & _ & _ & ->).
    pose proof (getUint8_Right _ _ Hget) as [Hoff _].
    exists length. simpl. repeat split; auto.
    rewrite subarray_length; lia.
Qed.

Lemma decodeNameFromUint8Array_no_pointer_witness :
  exists issue,
    decodeNameFromUint8Array (wire [ofList [97]] ++ toUint8 192 :: [toUint8 0])
    = Some (Left issue)
    /\ literalFailure issue = true.
Proof.
  apply (proj1 decodeNameFromUint8Array_no_pointer
           [ofList [97]] (toUint8 192) [toUint8 0]).
  - apply Forall_cons; [vm_compute; reflexivity | apply Forall_nil].
  - reflexivity.
  - vm_compute. discriminate.
Defined.

(** ** Pointers into the packet *)

(** C1, on the packet [compressedPacket]. The name written at offset 10
    decodes literally to [example], [com]; the pointer at offset 30 points at
    it; and decoding at offset 30 fails with [InvalidLabel], because after the
    jump the length byte 7 is read from the packet at offset 10 while the
    seven label bytes are cut from the window that starts at the cursor, at
    window offsets 11 to 17, where the packet ends after [04 01 02 03 04]. *)
Theorem pointer_labels_cut_from_window :
  decodeNameFromDnsPacketCursor
    {| cursor_uint8Array := compressedPacket; cursor_offset := 10 |}
  = Some (Right {| labels := [ofList [101; 120; 97; 109; 112; 108; 101];
                              ofList [99; 111; 109]];
                   encodedByteLength := 12 |})
  /\ getUint16 compressedPacket 30 = Right (192 * 256 + 10)
  /\ getPointerOffset (192 * 256 + 10) = 10
  /\ subarray
       (NameFromDnsPacketCursor.window
          {| cursor_uint8Array := compressedPacket; cursor_offset := 30 |})
       11 18
     = ofList [4; 1; 2; 3; 4]
  /\ decodeNameFromDnsPacketCursor
       {| cursor_uint8Array := compressedPacket; cursor_offset := 30 |}
     = Some (Left (InvalidLabel (LabelCharacter (Some 4)))).
Proof. repeat split; vm_compute; reflexivity. Qed.

(** ** The framer and its cursor *)

Module Framer.
Import Message.

Section Walk.

Variables Header Question ResourceRecord : Type.
Variables qdcount ancount nscount arcount : Header -> Z.
Variable decodeHeaderFromUint8Array : Uint8Array -> ParseResult Header.
Variable decodeQuestionFromDnsPacketCursor
  : DnsPacketCursor -> ParseResult (Question * Z).
Variable decodeResourceRecordFromDnsPacketCursor
  : DnsPacketCursor -> ParseResult (ResourceRecord * Z).

Lemma walks_app A (decodeElement : DnsPacketCursor -> ParseResult (A * Z))
    step c1 xs c2 ys c3 :
  walks decodeElement step c1 xs c2 ->
  walks decodeElement step c2 ys c3 ->
  walks decodeElement step c1 (xs ++ ys) c3.
Proof.
  induction 1 as [c|c x len xs c' Hdec Hwalk IH]; intros Hys; simpl; auto.
  econstructor; eauto.
Qed.

(** A section loop decodes its elements one after the other, moving the
    cursor past each by the reported length plus one. *)
Lemma section_walks A (decodeElement : DnsPacketCursor -> ParseResult (A * Z)) :
  forall n elements cursor elements' cursor',
    section decodeElement n elements cursor = Right (elements', cursor') ->
    exists new,
      elements' = elements ++ new /\ length new = n
      /\ walks decodeElement (fun len => len + 1) cursor new cursor'.
Proof.
  induction n as [|n IH]; intros elements cursor elements' cursor' H.
  - simpl in H. inversion H; subst. exists []. rewrite app_nil_r.
    repeat split. constructor.
  - simpl in H.
    destruct (decodeElement cursor) as [e|[element len]] eqn:Hdec;
      [discriminate|].
    simpl in H. apply IH in H. destruct H as (new & -> & Hlen & Hwalk).
    exists (element :: new). rewrite <- app_assoc. simpl.
    repeat split; [lia|]. econstructor; eauto.
Qed.

End Walk.

End Framer.

(** C2, as the code has it. When the framer decodes a message, the cursor
    starts at offset 12 and goes through the questions, the answers, the
    authority records and the additional records in that order; after each
    element it has moved by the [encodedByteLength] that the element's decoder
    reported plus one.  Each section has as many elements as the header
    counts. *)
Theorem framer_advances_by_length_plus_one
    (Header Question ResourceRecord : Type)
    (qdcount ancount nscount arcount : Header -> Z)
    (decodeHeader : Uint8Array -> ParseResult Header)
    (decodeQuestion : DnsPacketCursor -> ParseResult (Question * Z))
    (decodeResourceRecord : DnsPacketCursor -> ParseResult (ResourceRecord * Z))
    (uint8Array : Uint8Array)
    (message : Message.Message Header Question ResourceRecord)
    (cursor : DnsPacketCursor) :
  Message.decode_run qdcount ancount nscount arcount
    decodeHeader decodeQuestion decodeResourceRecord uint8Array
  = Right (message, cursor) ->
  exists c1 c2 c3,
    Message.walks decodeQuestion (fun len => len + 1)
      {| cursor_uint8Array := uint8Array; cursor_offset := 12 |}
      (Message.question message) c1
    /\ Message.walks decodeResourceRecord (fun len => len + 1)
         c1 (Message.answer message) c2
    /\ Message.walks decodeResourceRecord (fun len => len + 1)
         c2 (Message.authority message) c3
    /\ Message.walks decodeResourceRecord (fun len => len + 1)
         c3 (Message.additional message) cursor
    /\ length (Message.question message)
       = Z.to_nat (qdcount (Message.header message))
    /\ length (Message.answer message)
       = Z.to_nat (ancount (Message.header message))
    /\ length (Message.authority message)
       = Z.to_nat (nscount (Message.header message))
    /\ length (Message.additional message)
       = Z.to_nat (arcount (Message.header message)).
Proof.
  unfold Message.decode_run. intros H.
  destruct (decodeHeader _) as [e|header]; [discriminate|]. simpl bind in H.
  destruct (Message.section decodeQuestion _ _ _) as [e|[qs c1]] eqn:Hq;
    [discriminate|]. simpl bind in H. simpl snd in H.
  destruct (Message.section decodeResourceRecord _ _ c1) as [e|[an c2]] eqn:Han;
    [discriminate|]. simpl bind in H. simpl snd in H.
  destruct (Message.section decodeResourceRecord _ _ c2) as [e|[ns c3]] eqn:Hns;
    [discriminate|]. simpl bind in H. simpl snd in H.
  destruct (Message.section decodeResourceRecord _ _ c3) as [e|[ar c4]] eqn:Har;
    [discriminate|]. simpl in H.
  inversion H; subst; clear H. simpl.
  apply Framer.section_walks in Hq, Han, Hns, Har.
  destruct Hq as (q & -> & Hql & Hqw). destruct Han as (a & -> & Hal & Haw).
  destruct Hns as (n & -> & Hnl & Hnw). destruct Har as (r & -> & Hrl & Hrw).
  exists c1, c2, c3. simpl app. repeat split; auto.
Qed.

Lemma framer_advances_by_length_plus_one_witness :
  exists c1,
    Message.walks (fun cursor => Right (cursor_offset cursor, 5))
      (fun len => len + 1)
      {| cursor_uint8Array := []; cursor_offset := 12 |}
      [12; 18] c1.
Proof.
  destruct (@framer_advances_by_length_plus_one unit Z Z
              (fun _ => 2) (fun _ => 0) (fun _ => 0) (fun _ => 0)
              (fun _ => Right tt)
              (fun cursor => Right (cursor_offset cursor, 5))
              (fun cursor => Right (cursor_offset cursor, 5))
              []
              {| Message.header := tt; Message.question := [12; 18];
                 Message.answer := []; Message.authority := [];
                 Message.additional := [] |}
              {| cursor_uint8Array := []; cursor_offset := 24 |}
              eq_refl)
    as (c1 & c2 & c3 & Hq & _).
  exists c1. exact Hq.
Defined.

(** C2, as stated, fails on [stubDecode]: the first question is decoded at
    offset 12 and reports 5 bytes, yet the second is decoded at 18, not 17,
    and after both the cursor is at 24, not 22. *)
Lemma framer_advances_one_more :
  stubDecode []
  = Right ({| Message.header := tt; Message.question := [12; 18];
              Message.answer := []; Message.authority := [];
              Message.additional := [] |},
           {| cursor_uint8Array := []; cursor_offset := 24 |})
  /\ ~ (exists c1,
          Message.walks (fun cursor => Right (cursor_offset cursor, 5))
            (fun len => len)
            {| cursor_uint8Array := []; cursor_offset := 12 |}
            [12; 18] c1).
Proof.
  split; [reflexivity|].
  intros [c1 H].
  inversion H as [|c x len xs c' Hdec Hwalk]; subst.
  inversion Hdec; subst.
  inversion Hwalk as [|c x len xs c'' Hdec' Hwalk']; subst.
  simpl in Hdec'. inversion Hdec'.
Qed.

(** * Further properties of the codec *)

(** ** The label grammar *)

Lemma isHypen_Some v : isHypen v = true <-> v = Some 45.
Proof.
  destruct v as [b|]; simpl; unfold AsciiHyphen.
  - rewrite Z.eqb_eq. split; [intros ->; reflexivity | congruence].
  - split; discriminate.
Qed.

(** What one iteration of the filter checks at an index of the label. *)
Lemma Label_body_None l i :
  Label_body l i = None <->
  isValidLabelCharacter (at_ l i) = true
  /\ (i = 0 -> isHypen (at_ l i) = false)
  /\ (i = byteLength l - 1 -> isHypen (at_ l i) = false)
  /\ (i = 3 -> isHypen (at_ l 2) = true -> isHypen (at_ l 3) = true ->
      orZero (at_ l 0) = 120 /\ orZero (at_ l 1) = 110).
Proof.
  unfold Label_body. destruct (Z.eq_dec i 3) as [->|Hne].
  - change (3 >? 0) with true. change (3 - 1) with 2.
    change (3 =? 0) with false. change (3 =? 3) with true. cbv iota.
    destruct (isValidLabelCharacter (at_ l 3));
      destruct (isHypen (at_ l 3));
      destruct (isHypen (at_ l 2));
      destruct (Z.eqb_spec 3 (byteLength l - 1));
      destruct (Z.eqb_spec (orZero (at_ l 0)) 120);
      destruct (Z.eqb_spec (orZero (at_ l 1)) 110);
      simpl; intuition (try discriminate; try lia; try congruence).
  - replace (i =? 3) with false by (symmetry; lia). rewrite andb_false_r.
    destruct (isValidLabelCharacter (at_ l i));
      destruct (isHypen (at_ l i));
      destruct (Z.eqb_spec i 0);
      destruct (Z.eqb_spec i (byteLength l - 1));
      simpl; intuition (try discriminate; try lia; try congruence).
Qed.

Lemma orZero_at l i v :
  0 <= i < byteLength l -> orZero (at_ l i) = v -> at_ l i = Some v.
Proof. intros Hi. rewrite at_inside by assumption. simpl. congruence. Qed.

Lemma forallb_valid l :
  forallb (fun b => isValidLabelCharacter (Some (u8 b))) l = true <->
  (forall i, 0 <= i < byteLength l -> isValidLabelCharacter (at_ l i) = true).
Proof.
  split.
  - intros H i Hi. now apply forallb_at.
  - intros H. apply forallb_forall. intros b Hin.
    apply In_nth with (d := x00) in Hin. destruct Hin as (k & Hk & <-).
    specialize (H (Z.of_nat k)).
    rewrite at_inside in H by (unfold byteLength; lia).
    rewrite Nat2Z.id in H. apply H. unfold byteLength. lia.
Qed.

(** X1. The labels the filter accepts are exactly the byte strings of 1 to
    63 bytes, all of them digits, letters or hyphens, that neither start nor
    end with a hyphen and that, when their 3rd and 4th bytes are both hyphens,
    start with [x] then [n]. *)
Theorem Label_filter_accepts l :
  Label_filter l = None <->
  1 <= byteLength l <= 63
  /\ forallb (fun b => isValidLabelCharacter (Some (u8 b))) l = true
  /\ isHypen (at_ l 0) = false
  /\ isHypen (at_ l (byteLength l - 1)) = false
  /\ (at_ l 2 = Some 45 -> at_ l 3 = Some 45 ->
      at_ l 0 = Some 120 /\ at_ l 1 = Some 110).
Proof.
  rewrite Label_filter_None, forallb_valid. split.
  - intros [Hlen Hbody]. split; [assumption|]. repeat split.
    + intros i Hi. now apply Label_body_None, Hbody.
    + destruct (proj1 (Label_body_None l 0) (Hbody 0 ltac:(lia)))
        as (_ & H & _). now apply H.
    + destruct (proj1 (Label_body_None l (byteLength l - 1))
                  (Hbody (byteLength l - 1) ltac:(lia)))
        as (_ & _ & H & _). now apply H.
    + assert (H3lt : 3 < byteLength l)
        by (apply at_Some with (v := 45); [lia | assumption]).
      destruct (proj1 (Label_body_None l 3) (Hbody 3 ltac:(lia)))
        as (_ & _ & _ & Hace).
      destruct Hace as [A _]; auto; try now apply isHypen_Some.
      apply orZero_at; [lia | assumption].
    + assert (H3lt : 3 < byteLength l)
        by (apply at_Some with (v := 45); [lia | assumption]).
      destruct (proj1 (Label_body_None l 3) (Hbody 3 ltac:(lia)))
        as (_ & _ & _ & Hace).
      destruct Hace as [_ B]; auto; try now apply isHypen_Some.
      apply orZero_at; [lia | assumption].
  - intros (Hlen & Hvalid & Hfirst & Hlast & Hace). split; [assumption|].
    intros i Hi. apply Label_body_None. repeat split; auto.
    + intros ->. assumption.
    + intros ->. assumption.
    + apply isHypen_Some in H0, H1. destruct (Hace H0 H1) as [A _].
      now rewrite A.
    + apply isHypen_Some in H0, H1. destruct (Hace H0 H1) as [_ B].
      now rewrite B.
Qed.

Lemma Label_filter_accepts_witness :
  at_ (ofList [120; 110; 45; 45; 97]) 0 = Some 120
  /\ at_ (ofList [120; 110; 45; 45; 97]) 1 = Some 110.
Proof.
  apply (proj1 (Label_filter_accepts (ofList [120; 110; 45; 45; 97])));
    reflexivity.
Defined.

(** ** The pointer marker *)

(** X2. On a byte, [byteIsPointer] holds exactly for the values 192 to 255;
    and for a 16-bit value read at such a byte, [getPointerOffset] drops the
    two marker bits: it is the value less 49152, between 0 and 16383. *)
Theorem pointer_marker_and_offset (hi lo : byte) :
  (byteIsPointer (u8 hi) = true <-> 192 <= u8 hi)
  /\ (byteIsPointer (u8 hi) = true ->
      getPointerOffset (u8 hi * 256 + u8 lo) = (u8 hi - 192) * 256 + u8 lo
      /\ 0 <= getPointerOffset (u8 hi * 256 + u8 lo) <= 16383).
Proof.
  rewrite byteIsPointer_u8.
  pose proof (u8_range hi) as Hhi. pose proof (u8_range lo) as Hlo.
  split; [split; lia|]. intros Hptr.
  assert (Hoff : getPointerOffset (u8 hi * 256 + u8 lo)
                 = (u8 hi - 192) * 256 + u8 lo).
  { unfold getPointerOffset.
    change 16383 with (Z.ones 14). rewrite Z.land_ones by lia.
    change (2 ^ 14) with 16384.
    symmetry. apply Z.mod_unique with (q := 3); lia. }
  rewrite Hoff. split; [reflexivity | lia].
Qed.

Lemma pointer_marker_and_offset_witness :
  getPointerOffset (u8 (toUint8 192) * 256 + u8 (toUint8 10))
  = (u8 (toUint8 192) - 192) * 256 + u8 (toUint8 10).
Proof.
  apply (proj2 (pointer_marker_and_offset (toUint8 192) (toUint8 10))).
  reflexivity.
Defined.

(** ** The [Name] schema *)

(** X3. A value passes the [Name] schema, unchanged, exactly when it has at
    least one label, every label is a [Label], the labels with one length
    byte each and the terminator take at most 255 bytes, and its
    [encodedByteLength] is between 1 and 255; otherwise it is rejected. *)
Theorem Name_schema_accepts (n : Name) :
  (Name_validate n = Right n <->
   labels n <> []
   /\ Forall isLabel (labels n)
   /\ Z.of_nat (length (labels n)) + labelBytes (labels n) + 1 <= 255
   /\ 1 <= encodedByteLength n <= 255)
  /\ (forall n', Name_validate n = Right n' -> n' = n).
Proof.
  split.
  - rewrite Name_validate_Right, wire_length. tauto.
  - intros n' H. apply Name_validate_Right in H. tauto.
Qed.

Lemma Name_schema_accepts_witness :
  Name_validate {| labels := [ofList [97]]; encodedByteLength := 2 |}
  = Right {| labels := [ofList [97]]; encodedByteLength := 2 |}.
Proof.
  apply (proj1 (Name_schema_accepts
                  {| labels := [ofList [97]]; encodedByteLength := 2 |})).
  repeat split; try (vm_compute; discriminate).
  apply Forall_cons; [vm_compute; reflexivity | apply Forall_nil].
Defined.

(** ** The encoder, case by case *)

Lemma encode_size_over ls : forall a,
  Forall isLabel ls -> a <= 255 -> a + labelBytes ls > 255 ->
  NameFromUint8Array.encode_size ls a = Left NameTooLong.
Proof.
  induction ls as [|l ls IH]; intros a Hall Ha Hover; simpl in *; [lia|].
  apply Forall_cons_iff in Hall. destruct Hall as [Hl Hls].
  unfold encodeLabelFromUnknown. rewrite Hl. simpl bind.
  destruct (a + byteLength l >? 255) eqn:E; [reflexivity|].
  apply IH; auto; lia.
Qed.

(** X4. The transformation [encode] of [NameFromUint8Array], by itself:
    without labels it fails with [EmptyName]; with labels that are all
    [Label]s it emits each label after its length byte and then one zero
    byte when that takes at most 255 bytes, and fails with [NameTooLong]
    when it would take more. *)
Theorem encode_cases (n : Name) :
  (labels n = [] -> NameFromUint8Array.encode n = Left EmptyName)
  /\ (labels n <> [] -> Forall isLabel (labels n) ->
      byteLength (wire (labels n)) + 1 <= 255 ->
      NameFromUint8Array.encode n = Right (wire (labels n) ++ [x00]))
  /\ (labels n <> [] -> Forall isLabel (labels n) ->
      byteLength (wire (labels n)) + 1 > 255 ->
      NameFromUint8Array.encode n = Left NameTooLong).
Proof.
  split; [|split].
  - intros H. unfold NameFromUint8Array.encode. now rewrite H.
  - intros. now apply Encoder.encode_ok.
  - intros Hne Hall Hover. unfold NameFromUint8Array.encode.
    rewrite wire_length in Hover.
    destruct (labels n) as [|l ls] eqn:Hls; [congruence|].
    replace (Z.of_nat (length (l :: ls)) =? 0) with false
      by (symmetry; apply Z.eqb_neq; simpl length; lia).
    apply Forall_cons_iff in Hall. destruct Hall as [Hl Hrest].
    simpl labelBytes in Hover.
    remember (Z.of_nat (length (l :: ls))) as count eqn:Hcount.
    cbn [NameFromUint8Array.encode_size].
    unfold encodeLabelFromUnknown. rewrite Hl. cbn [bind].
    destruct (count + 1 + byteLength l >? 255) eqn:E; [reflexivity|].
    rewrite encode_size_over; auto; lia.
Qed.

Lemma encode_cases_witness :
  NameFromUint8Array.encode {| labels := []; encodedByteLength := 1 |}
  = Left EmptyName.
Proof.
  apply (proj1 (encode_cases {| labels := []; encodedByteLength := 1 |})).
  reflexivity.
Defined.

(** X5. [encodeNameFromUint8Array] succeeds exactly on the values that pass
    the [Name] schema, and then returns the labels, each after its length
    byte, followed by one zero byte: the number of labels plus their bytes
    plus one, between 3 and 255 bytes in all.  When it fails, the issue is the
    one of the schema, so [EmptyName] and [NameTooLong] are never what a
    caller of [encodeNameFromUint8Array] sees. *)
Theorem encodeNameFromUint8Array_cases (N : Name) :
  (forall bytes,
      encodeNameFromUint8Array N = Right bytes <->
      Name_validate N = Right N /\ bytes = wire (labels N) ++ [x00])
  /\ (forall bytes,
         encodeNameFromUint8Array N = Right bytes ->
         byteLength bytes
         = Z.of_nat (length (labels N)) + labelBytes (labels N) + 1
         /\ 3 <= byteLength bytes <= 255)
  /\ (forall issue,
         encodeNameFromUint8Array N = Left issue ->
         Name_validate N = Left issue).
Proof.
  assert (Hok : Name_validate N = Right N ->
                encodeNameFromUint8Array N = Right (wire (labels N) ++ [x00])).
  { intros Hval. unfold encodeNameFromUint8Array. rewrite Hval. simpl bind.
    apply Name_validate_Right in Hval.
    destruct Hval as (_ & Hall & Hne & Hle & _).
    now apply Encoder.encode_ok. }
  assert (Hfwd : forall bytes,
             encodeNameFromUint8Array N = Right bytes ->
             Name_validate N = Right N /\ bytes = wire (labels N) ++ [x00]).
  { intros bytes H.
    assert (Hval : Name_validate N = Right N).
    { unfold encodeNameFromUint8Array in H.
      destruct (Name_validate N) as [e|n'] eqn:Hv; [discriminate|].
      f_equal. apply Name_validate_Right in Hv. tauto. }
    split; [assumption|]. rewrite (Hok Hval) in H. now inversion H. }
  split; [|split].
  - intros bytes. split; [apply Hfwd|]. intros [Hval ->]. now apply Hok.
  - intros bytes H. apply Hfwd in H. destruct H as [Hval ->].
    apply Name_validate_Right in Hval.
    destruct Hval as (_ & Hall & Hne & Hle & _).
    rewrite byteLength_app. change (byteLength [x00]) with 1.
    rewrite wire_length in *.
    split; [reflexivity|].
    destruct (labels N) as [|l ls]; [congruence|].
    apply Forall_cons_iff in Hall. destruct Hall as [Hl _].
    apply Label_length in Hl. pose proof (labelBytes_nonneg ls).
    simpl length in *. simpl labelBytes in *. lia.
  - intros issue H.
    destruct (Name_validate N) as [e|n'] eqn:Hval.
    + unfold encodeNameFromUint8Array in H. rewrite Hval in H.
      simpl in H. congruence.
    + pose proof (proj1 (Name_validate_Right N n') Hval) as [-> _].
      rewrite (Hok eq_refl) in H. discriminate.
Qed.

Lemma encodeNameFromUint8Array_cases_witness :
  byteLength (ofList [1; 97; 0])
  = Z.of_nat (length [ofList [97]]) + labelBytes [ofList [97]] + 1
  /\ 3 <= byteLength (ofList [1; 97; 0]) <= 255.
Proof.
  apply (proj1 (proj2 (encodeNameFromUint8Array_cases
                         {| labels := [ofList [97]];
                            encodedByteLength := 2 |}))
           (ofList [1; 97; 0])).
  reflexivity.
Defined.

(** ** The standalone decoder, case by case *)

(** The state the standalone loop is in after the labels [ls]. *)
Lemma decode_after_labels u ls tail :
  u = wire ls ++ tail -> 2 <= byteLength u ->
  Forall isLabel ls -> labelBytes ls <= 255 ->
  NameFromUint8Array.decode u
  = andThen
      (while_loop (NameFromUint8Array.body u (viewOf u))
         (S (length u - length ls))
         {| NameFromUint8Array.st_labels := ls;
            NameFromUint8Array.st_offset := byteLength (wire ls);
            NameFromUint8Array.st_nameSize := labelBytes ls |})
      (fun s => Right {| labels := NameFromUint8Array.st_labels s;
                         encodedByteLength :=
                           NameFromUint8Array.st_offset s |}).
Proof.
  intros Hu Hlen Hall Hsize. unfold NameFromUint8Array.decode.
  replace (byteLength u <? 2) with false by (symmetry; lia).
  assert (Hfuel : (length ls <= length u)%nat).
  { pose proof (wire_length ls) as Hw. pose proof (labelBytes_nonneg ls).
    rewrite Hu, length_app. unfold byteLength in Hw. lia. }
  replace (NameFromUint8Array.fuel u)
    with (length ls + S (length u - length ls))%nat
    by (unfold NameFromUint8Array.fuel; lia).
  rewrite ArrayLoop.run_labels with (pre := []) (rest := tail);
    [ | assumption | reflexivity | assumption | simpl; lia ].
  reflexivity.
Qed.

(** A literal name followed by anything. *)
Lemma decode_wire_then ls rest :
  Forall isLabel ls -> ls <> [] -> byteLength (wire ls) + 1 <= 255 ->
  decodeNameFromUint8Array (wire ls ++ x00 :: rest)
  = Some (Right {| labels := ls; encodedByteLength := byteLength (wire ls) |}).
Proof.
  intros Hall Hne Hle.
  pose proof (wire_length ls) as Hw.
  pose proof (labelBytes_nonneg ls) as Hnn.
  assert (Hcount : 1 <= Z.of_nat (length ls))
    by (destruct ls; [congruence | simpl length; lia]).
  assert (Hlab : 1 <= labelBytes ls).
  { destruct ls as [|l ls']; [congruence|].
    apply Forall_cons_iff in Hall. destruct Hall as [Hl _].
    apply Label_length in Hl. simpl.
    pose proof (labelBytes_nonneg ls'). lia. }
  unfold decodeNameFromUint8Array.
  rewrite decode_after_labels with (ls := ls) (tail := x00 :: rest);
    auto; [ | | lia ].
  2:{ rewrite byteLength_app, byteLength_cons.
      pose proof (byteLength_nonneg rest). lia. }
  rewrite while_loop_S.
  rewrite ArrayLoop.body_terminator by (simpl; apply getUint8_app).
  simpl andThen. f_equal.
  apply Name_validate_Right. simpl. repeat split; auto; lia.
Qed.

(** X6. The standalone decoder succeeds exactly on the buffers that start
    with a literal name: one or more [Label]s, each after its length byte,
    then a zero byte, within 255 bytes in all.  What follows the zero byte is
    ignored, and the result holds those labels and the offset of the zero
    byte. *)
Theorem decodeNameFromUint8Array_succeeds u n :
  decodeNameFromUint8Array u = Some (Right n) <->
  (exists rest, u = wire (labels n) ++ x00 :: rest)
  /\ labels n <> []
  /\ Forall isLabel (labels n)
  /\ byteLength (wire (labels n)) + 1 <= 255
  /\ encodedByteLength n = byteLength (wire (labels n)).
Proof.
  split.
  - intros H. apply decodeNameFromUint8Array_Right in H.
    destruct H as [Hdec Hval].
    apply ArrayLoop.decode_Right in Hdec. destruct Hdec as (Hu & Hebl & Hall).
    apply Name_validate_Right in Hval. tauto.
  - intros ([rest Hu] & Hne & Hall & Hle & Hebl).
    pose proof (wire_length (labels n)) as Hw.
    pose proof (labelBytes_nonneg (labels n)) as Hnn.
    assert (Hcount : 1 <= Z.of_nat (length (labels n)))
      by (destruct (labels n); [congruence | simpl length; lia]).
    assert (Hlen : 2 <= byteLength u).
    { rewrite Hu, byteLength_app, byteLength_cons.
      pose proof (byteLength_nonneg rest).
      destruct (labels n) as [|l ls]; [congruence|].
      apply Forall_cons_iff in Hall. destruct Hall as [Hl _].
      apply Label_length in Hl. simpl labelBytes in Hw.
      pose proof (labelBytes_nonneg ls). simpl length in Hw. lia. }
    unfold decodeNameFromUint8Array.
    rewrite decode_after_labels with (ls := labels n) (tail := x00 :: rest);
      auto; [|lia].
    rewrite while_loop_S.
    rewrite ArrayLoop.body_terminator
      by (simpl; rewrite Hu; apply getUint8_app).
    simpl andThen. f_equal. rewrite <- Hebl.
    destruct n as [ls ebl]. simpl in *.
    apply Name_validate_Right. simpl. repeat split; auto; lia.
Qed.

Lemma decodeNameFromUint8Array_succeeds_witness :
  decodeNameFromUint8Array (ofList [1; 97; 0; 255; 255])
  = Some (Right {| labels := [ofList [97]]; encodedByteLength := 2 |}).
Proof.
  apply (proj2 (decodeNameFromUint8Array_succeeds
                  (ofList [1; 97; 0; 255; 255])
                  {| labels := [ofList [97]]; encodedByteLength := 2 |})).
  split; [exists (ofList [255; 255]); reflexivity|].
  split; [discriminate|].
  split; [apply Forall_cons; [vm_compute; reflexivity | apply Forall_nil]|].
  split; [vm_compute; discriminate | reflexivity].
Defined.

(** X7. After any literal labels within the size limit, a non-zero length
    byte that declares more bytes than the buffer still holds makes the
    standalone decoder fail with [LabelOverrun] at the offset of that length
    byte; nothing past the buffer is read. *)
Theorem decodeNameFromUint8Array_overrun ls b rest :
  Forall isLabel ls -> labelBytes ls <= 255 ->
  u8 b <> 0 -> byteLength rest < u8 b ->
  2 <= byteLength (wire ls ++ b :: rest) ->
  decodeNameFromUint8Array (wire ls ++ b :: rest)
  = Some (Left (LabelOverrun (byteLength (wire ls)))).
Proof.
  intros Hall Hsize Hb Hshort Hlen.
  unfold decodeNameFromUint8Array.
  rewrite decode_after_labels with (ls := ls) (tail := b :: rest); auto.
  rewrite while_loop_S.
  unfold NameFromUint8Array.body at 1, viewOf.
  cbn [NameFromUint8Array.st_offset]. rewrite getUint8_app.
  replace (u8 b =? 0) with false by (symmetry; lia).
  rewrite byteLength_app, byteLength_cons.
  replace (byteLength (wire ls) + 1 + u8 b
           >? byteLength (wire ls) + (1 + byteLength rest))
    with true by (symmetry; lia).
  reflexivity.
Qed.

Lemma decodeNameFromUint8Array_overrun_witness :
  decodeNameFromUint8Array (wire [ofList [97]] ++ toUint8 5 :: ofList [98; 99])
  = Some (Left (LabelOverrun (byteLength (wire [ofList [97]])))).
Proof.
  apply (@decodeNameFromUint8Array_overrun
           [ofList [97]] (toUint8 5) (ofList [98; 99])).
  - apply Forall_cons; [vm_compute; reflexivity | apply Forall_nil].
  - vm_compute. discriminate.
  - vm_compute. discriminate.
  - vm_compute. reflexivity.
  - vm_compute. discriminate.
Defined.

(** X8. A buffer that ends after its last label, without the zero byte,
    makes the standalone decoder fail with [BufferUnderrun] at the offset
    just past the buffer. *)
Theorem decodeNameFromUint8Array_unterminated ls :
  Forall isLabel ls -> labelBytes ls <= 255 ->
  2 <= byteLength (wire ls) ->
  decodeNameFromUint8Array (wire ls)
  = Some (Left (BufferUnderrun (byteLength (wire ls)))).
Proof.
  intros Hall Hsize Hlen.
  unfold decodeNameFromUint8Array.
  rewrite decode_after_labels with (ls := ls) (tail := []);
    auto; [|symmetry; apply app_nil_r].
  rewrite while_loop_S.
  unfold NameFromUint8Array.body at 1, viewOf, getUint8.
  cbn [NameFromUint8Array.st_offset].
  replace ((0 <=? byteLength (wire ls))
           && (byteLength (wire ls) <? byteLength (wire ls)))
    with false by (symmetry; apply andb_false_iff; right; lia).
  reflexivity.
Qed.

Lemma decodeNameFromUint8Array_unterminated_witness :
  decodeNameFromUint8Array (wire [ofList [97]])
  = Some (Left (BufferUnderrun (byteLength (wire [ofList [97]])))).
Proof.
  apply (@decodeNameFromUint8Array_unterminated [ofList [97]]).
  - apply Forall_cons; [vm_compute; reflexivity | apply Forall_nil].
  - vm_compute. discriminate.
  - vm_compute. discriminate.
Defined.

(** X9. After any literal labels within the size limit, a length byte
    followed by that many bytes that the label filter rejects makes the
    standalone decoder fail with [InvalidLabel] and the filter's own
    message. *)
Theorem decodeNameFromUint8Array_invalid_label ls l why rest :
  Forall isLabel ls -> labelBytes ls <= 255 ->
  1 <= byteLength l <= 255 ->
  Label_filter l = Some why ->
  decodeNameFromUint8Array (wire ls ++ (toUint8 (byteLength l) :: l) ++ rest)
  = Some (Left (InvalidLabel why)).
Proof.
  intros Hall Hsize Hlen Hbad.
  unfold decodeNameFromUint8Array.
  rewrite decode_after_labels
    with (ls := ls) (tail := (toUint8 (byteLength l) :: l) ++ rest); auto.
  2:{ rewrite !byteLength_app, byteLength_cons.
      pose proof (byteLength_nonneg (wire ls)).
      pose proof (byteLength_nonneg rest). lia. }
  rewrite while_loop_S.
  rewrite ArrayLoop.body_label with (pre := wire ls) (l := l) (rest := rest);
    [ | reflexivity | reflexivity | assumption ].
  unfold decodeLabel. rewrite Hbad. reflexivity.
Qed.

Lemma decodeNameFromUint8Array_invalid_label_witness :
  decodeNameFromUint8Array
    (wire [ofList [97]] ++ (toUint8 (byteLength (ofList [45; 98]))
                              :: ofList [45; 98]) ++ [x00])
  = Some (Left (InvalidLabel LabelStartsWithHyphen)).
Proof.
  apply (@decodeNameFromUint8Array_invalid_label
           [ofList [97]] (ofList [45; 98]) LabelStartsWithHyphen [x00]).
  - apply Forall_cons; [vm_compute; reflexivity | apply Forall_nil].
  - vm_compute. discriminate.
  - vm_compute. split; discriminate.
  - reflexivity.
Defined.

(** X10. A literal name whose label bytes stay within 255 but which takes
    more than 255 bytes once its length bytes and terminator are counted is
    read to its end by the loop and then rejected by the [Name] schema: the
    standalone decoder fails with the schema's size issue, not with
    [NameTooLong]. *)
Theorem decodeNameFromUint8Array_oversize ls rest :
  Forall isLabel ls -> labelBytes ls <= 255 ->
  byteLength (wire ls) + 1 > 255 ->
  decodeNameFromUint8Array (wire ls ++ x00 :: rest)
  = Some (Left (InvalidName (byteLength (wire ls) + 1))).
Proof.
  intros Hall Hsize Hover.
  unfold decodeNameFromUint8Array.
  rewrite decode_after_labels with (ls := ls) (tail := x00 :: rest); auto.
  2:{ rewrite byteLength_app, byteLength_cons.
      pose proof (byteLength_nonneg rest). lia. }
  rewrite while_loop_S.
  rewrite ArrayLoop.body_terminator by (simpl; apply getUint8_app).
  simpl andThen. f_equal. unfold Name_validate. simpl labels.
  replace (Name_labels_each ls) with (@None ParseIssue)
    by (symmetry; now apply Name_labels_each_None).
  unfold Name_labels_filter. rewrite fold_left_labelBytes, <- wire_length.
  replace (byteLength (wire ls) =? 0) with false by (symmetry; lia).
  now replace (byteLength (wire ls) + 1 >? 255) with true by (symmetry; lia).
Qed.

Lemma decodeNameFromUint8Array_oversize_witness :
  decodeNameFromUint8Array
    (wire [letters 50; letters 50; letters 50; letters 50; letters 50]
       ++ x00 :: [])
  = Some (Left (InvalidName 256)).
Proof.
  apply (@decodeNameFromUint8Array_oversize
           [letters 50; letters 50; letters 50; letters 50; letters 50] []).
  - repeat (apply Forall_cons; [vm_compute; reflexivity|]). apply Forall_nil.
  - vm_compute. discriminate.
  - vm_compute. reflexivity.
Defined.

(** X22. In the standalone decoder the size check follows each decoded
    label, with the threshold at exactly 255 label bytes.  After labels that
    total at most 255 bytes, a further label that brings the total above 255
    makes the decode fail with [NameTooLong], whatever follows that label in
    the buffer; one that keeps the total at 255 or below is taken, and when
    the zero byte follows it the decode goes on to the [Name] schema, so the
    result is never [NameTooLong]. *)
Theorem decodeNameFromUint8Array_size_threshold ls l rest :
  Forall isLabel ls -> isLabel l -> labelBytes ls <= 255 ->
  (labelBytes ls + byteLength l > 255 ->
   decodeNameFromUint8Array
     (wire ls ++ (toUint8 (byteLength l) :: l) ++ rest)
   = Some (Left NameTooLong))
  /\ (labelBytes ls + byteLength l <= 255 ->
      decodeNameFromUint8Array
        (wire ls ++ (toUint8 (byteLength l) :: l) ++ x00 :: rest)
      = Some (Name_validate
                {| labels := ls ++ [l];
                   encodedByteLength := byteLength (wire (ls ++ [l])) |})
      /\ decodeNameFromUint8Array
           (wire ls ++ (toUint8 (byteLength l) :: l) ++ x00 :: rest)
         <> Some (Left NameTooLong)).
Proof.
  intros Hall Hl Hle. split.
  - intros Hover. now apply decode_crossing.
  - intros Hfits.
    pose proof (Label_length Hl) as Hlen.
    assert (Heq : decodeNameFromUint8Array
                    (wire ls ++ (toUint8 (byteLength l) :: l) ++ x00 :: rest)
                  = Some (Name_validate
                            {| labels := ls ++ [l];
                               encodedByteLength :=
                                 byteLength (wire (ls ++ [l])) |})).
    { replace (wire ls ++ (toUint8 (byteLength l) :: l) ++ x00 :: rest)
        with (wire (ls ++ [l]) ++ x00 :: rest)
        by (rewrite wire_app, wire_cons; simpl wire;
            rewrite app_nil_r, <- app_assoc; reflexivity).
      unfold decodeNameFromUint8Array.
      rewrite decode_after_labels
        with (ls := ls ++ [l]) (tail := x00 :: rest); auto.
      - rewrite while_loop_S.
        rewrite ArrayLoop.body_terminator by (simpl; apply getUint8_app).
        reflexivity.
      - rewrite byteLength_app, byteLength_cons, wire_length.
        rewrite labelBytes_app. simpl labelBytes.
        pose proof (labelBytes_nonneg ls). pose proof (byteLength_nonneg rest).
        lia.
      - apply Forall_app. split; auto.
      - rewrite labelBytes_app. simpl labelBytes. lia. }
    split; [assumption|].
    rewrite Heq. intros H. inversion H as [Hv].
    now apply Name_validate_not_NameTooLong in Hv.
Qed.

(** Four labels of 63 letters and a fifth of four: the fifth crosses. *)
Lemma decodeNameFromUint8Array_size_threshold_witness :
  decodeNameFromUint8Array
    (wire [letters 63; letters 63; letters 63; letters 63]
       ++ (toUint8 (byteLength (letters 4)) :: letters 4) ++ [x00])
  = Some (Left NameTooLong).
Proof.
  apply (proj1 (@decodeNameFromUint8Array_size_threshold
                  [letters 63; letters 63; letters 63; letters 63]
                  (letters 4) [x00]
                  ltac:(repeat (apply Forall_cons; [vm_compute; reflexivity|]);
                        apply Forall_nil)
                  ltac:(vm_compute; reflexivity)
                  ltac:(vm_compute; discriminate))).
  vm_compute. reflexivity.
Defined.

(** X11. The standalone decode loop terminates on every buffer: it ends, with
    a name or with an issue, within one iteration per byte of the buffer plus
    one, and iterating further changes nothing. *)
Theorem decodeNameFromUint8Array_terminates (u : Uint8Array) :
  (exists r, decodeNameFromUint8Array u = Some r)
  /\ (forall k,
         while_loop (NameFromUint8Array.body u (viewOf u))
           (NameFromUint8Array.fuel u + k) NameFromUint8Array.init
         = while_loop (NameFromUint8Array.body u (viewOf u))
             (NameFromUint8Array.fuel u) NameFromUint8Array.init).
Proof.
  split; [apply decodeNameFromUint8Array_total|].
  intros k.
  assert (Hends : while_loop (NameFromUint8Array.body u (viewOf u))
                    (NameFromUint8Array.fuel u) NameFromUint8Array.init
                  <> None).
  { apply ArrayLoop.array_loop_ends.
    unfold NameFromUint8Array.fuel, byteLength. simpl. lia. }
  destruct (while_loop _ (NameFromUint8Array.fuel u) _) as [r|] eqn:E;
    [|contradiction].
  now apply while_loop_more.
Qed.

(** X12. Encoding what the standalone decoder returned gives back the bytes
    it consumed: the buffer up to and including the zero byte. *)
Theorem encode_decode_prefix u n :
  decodeNameFromUint8Array u = Some (Right n) ->
  encodeNameFromUint8Array n
  = Right (firstn (Z.to_nat (encodedByteLength n + 1)) u).
Proof.
  intros H.
  pose proof (decodeNameFromUint8Array_Right _ H) as [Hdec Hval].
  apply ArrayLoop.decode_Right in Hdec.
  destruct Hdec as ([rest Hu] & Hebl & _).
  unfold encodeNameFromUint8Array. rewrite Hval. simpl bind.
  apply Name_validate_Right in Hval.
  destruct Hval as (_ & Hall & Hne & Hle & _).
  rewrite Encoder.encode_ok by assumption. f_equal.
  rewrite Hebl, Hu.
  replace (wire (labels n) ++ x00 :: rest)
    with ((wire (labels n) ++ [x00]) ++ rest)
    by (rewrite <- app_assoc; reflexivity).
  replace (Z.to_nat (byteLength (wire (labels n)) + 1))
    with (length (wire (labels n) ++ [x00]))
    by (rewrite length_app; unfold byteLength; simpl; lia).
  rewrite firstn_app, firstn_all, Nat.sub_diag. simpl. now rewrite app_nil_r.
Qed.

Lemma encode_decode_prefix_witness :
  encodeNameFromUint8Array {| labels := [ofList [97]]; encodedByteLength := 2 |}
  = Right (firstn (Z.to_nat (2 + 1)) (ofList [1; 97; 0; 255; 255])).
Proof.
  apply (@encode_decode_prefix (ofList [1; 97; 0; 255; 255])
           {| labels := [ofList [97]]; encodedByteLength := 2 |}).
  reflexivity.
Defined.

(** ** The packet-aware decoder, case by case *)

Module CursorCases.
Import NameFromDnsPacketCursor.

Lemma byteIsPointer_small v : 0 <= v < 192 -> byteIsPointer v = false.
Proof.
  intros Hv. rewrite <- (u8_toUint8 (v := v)) by lia.
  rewrite byteIsPointer_u8, u8_toUint8 by lia. lia.
Qed.

Lemma getUint8_outside dataView offset :
  byteLength dataView <= offset ->
  getUint8 dataView offset = Left (BufferUnderrun offset).
Proof.
  intros H. unfold getUint8.
  now replace ((0 <=? offset) && (offset <? byteLength dataView)) with false
    by (symmetry; apply andb_false_iff; right; lia).
Qed.

(** The window at a cursor that stands right after [pre]. *)
Lemma window_at pre tail :
  window {| cursor_uint8Array := pre ++ tail;
            cursor_offset := byteLength pre |}
  = firstn 255 tail.
Proof.
  unfold window, subarray, relativeIndex, MAX_NAME_BYTE_LENGTH.
  cbn [cursor_uint8Array cursor_offset].
  rewrite byteLength_app.
  pose proof (byteLength_nonneg pre). pose proof (byteLength_nonneg tail).
  replace (byteLength pre <? 0) with false by (symmetry; lia).
  replace (byteLength pre + 255 <? 0) with false by (symmetry; lia).
  replace (Z.min (byteLength pre) (byteLength pre + byteLength tail))
    with (byteLength pre) by lia.
  replace (Z.to_nat (byteLength pre)) with (length pre)
    by (unfold byteLength; lia).
  rewrite skipn_app, skipn_all, Nat.sub_diag. simpl skipn. simpl app.
  destruct (Z_le_gt_dec 255 (byteLength tail)) as [Hbig|Hsmall].
  - f_equal. lia.
  - replace (Z.to_nat (Z.min (byteLength pre + 255)
                         (byteLength pre + byteLength tail)
                       - byteLength pre))
      with (length tail) by (unfold byteLength in *; lia).
    rewrite firstn_all, firstn_all2; [reflexivity|].
    unfold byteLength in Hsmall. lia.
Qed.

Lemma window_size cursor :
  0 <= cursor_offset cursor ->
  byteLength (window cursor)
  = Z.max 0 (Z.min 255
               (byteLength (cursor_uint8Array cursor) - cursor_offset cursor)).
Proof.
  intros Hoff. unfold window, subarray, relativeIndex, MAX_NAME_BYTE_LENGTH.
  replace (cursor_offset cursor <? 0) with false by (symmetry; lia).
  replace (cursor_offset cursor + 255 <? 0) with false by (symmetry; lia).
  unfold byteLength. rewrite length_firstn, length_skipn. lia.
Qed.

(** Every way an iteration of the loop goes on. *)
Lemma body_inv cursor w s s' :
  body cursor w s = Continue s' ->
  (exists byte pointerAndOffset,
      getUint8 (st_dataView s) (st_offset s) = Right byte
      /\ byteIsPointer byte = true
      /\ st_encounteredPointer s = false
      /\ s' = {| st_labels := st_labels s;
                 st_offset := getPointerOffset pointerAndOffset;
                 st_bytesConsumed := st_bytesConsumed s + 2;
                 st_nameSize := st_nameSize s;
                 st_encounteredPointer := true;
                 st_dataView := viewOf (cursor_uint8Array cursor) |})
  \/
  (exists length,
      getUint8 (st_dataView s) (st_offset s) = Right length
      /\ byteIsPointer length = false
      /\ 1 <= length
      /\ st_offset s + 1 + length <= byteLength (st_dataView s)
      /\ isLabel (subarray w (st_offset s + 1) (st_offset s + 1 + length))
      /\ s' = {| st_labels :=
                   st_labels s
                     ++ [subarray w (st_offset s + 1)
                           (st_offset s + 1 + length)];
                 st_offset := st_offset s + (length + 1);
                 st_bytesConsumed :=
                   if st_encounteredPointer s then st_bytesConsumed s
                   else st_offset s + (length + 1);
                 st_nameSize :=
                   st_nameSize s
                   + byteLength (subarray w (st_offset s + 1)
                                   (st_offset s + 1 + length));
                 st_encounteredPointer := st_encounteredPointer s;
                 st_dataView := st_dataView s |}).
Proof.
  unfold body.
  destruct (getUint8 (st_dataView s) (st_offset s)) as [e|byte] eqn:Hget;
    [discriminate|].
  pose proof (getUint8_Right _ _ Hget) as [Hoff Hbyte].
  destruct (byteIsPointer byte) eqn:Hptr.
  - destruct (st_encounteredPointer s) eqn:Hep; [discriminate|].
    destruct (getUint16 (st_dataView s) (st_offset s)) as [e|v];
      [discriminate|].
    intros H. inversion H; subst; clear H. left. exists byte, v. auto.
  - destruct (byte =? 0) eqn:Hz; [discriminate|].
    destruct (_ >? byteLength (st_dataView s)) eqn:Hfit; [discriminate|].
    unfold decodeLabel.
    destruct (Label_filter _) eqn:Hlabel; [discriminate|].
    destruct (_ >? 255); [discriminate|].
    intros H. inversion H; subst; clear H. right. exists byte.
    repeat split; auto; lia.
Qed.

(** An iteration at a label while the loop reads the window. *)
Lemma body_at_label cursor w s pre l rest :
  st_dataView s = w ->
  w = pre ++ (toUint8 (byteLength l) :: l) ++ rest ->
  st_offset s = byteLength pre ->
  1 <= byteLength l <= 63 ->
  body cursor w s
  = match decodeLabel l with
    | Left issue => Fail issue
    | Right label =>
        if st_nameSize s + byteLength label >? 255 then Fail NameTooLong
        else Continue {| st_labels := st_labels s ++ [label];
                         st_offset := st_offset s + (byteLength l + 1);
                         st_bytesConsumed :=
                           if st_encounteredPointer s then st_bytesConsumed s
                           else st_offset s + (byteLength l + 1);
                         st_nameSize := st_nameSize s + byteLength label;
                         st_encounteredPointer := st_encounteredPointer s;
                         st_dataView := st_dataView s |}
    end.
Proof.
  intros Hdv Hw Hoff Hlen. unfold body. rewrite Hdv, Hoff.
  assert (Hget : getUint8 w (byteLength pre) = Right (byteLength l)).
  { rewrite Hw. simpl app. rewrite getUint8_app. f_equal.
    apply u8_toUint8. lia. }
  rewrite Hget, byteIsPointer_small by lia.
  replace (byteLength l =? 0) with false by (symmetry; lia).
  assert (Hsize : byteLength w
                  = byteLength pre + 1 + byteLength l + byteLength rest).
  { rewrite Hw. rewrite !byteLength_app, byteLength_cons. lia. }
  pose proof (byteLength_nonneg rest).
  replace (byteLength pre + 1 + byteLength l >? byteLength w) with false
    by (symmetry; lia).
  assert (Hsub : subarray w (byteLength pre + 1)
                   (byteLength pre + 1 + byteLength l) = l).
  { rewrite Hw.
    replace (pre ++ (toUint8 (byteLength l) :: l) ++ rest)
      with ((pre ++ [toUint8 (byteLength l)]) ++ l ++ rest)
      by (rewrite <- app_assoc; reflexivity).
    replace (byteLength pre + 1)
      with (byteLength (pre ++ [toUint8 (byteLength l)]))
      by (rewrite byteLength_app; reflexivity).
    apply subarray_app. }
  rewrite Hsub. reflexivity.
Qed.

(** Running over literal labels in the window, before any pointer. *)
Lemma run_window_labels cursor w ls : forall pre rest s k,
  st_dataView s = w -> st_encounteredPointer s = false ->
  st_bytesConsumed s = st_offset s ->
  w = pre ++ wire ls ++ rest ->
  st_offset s = byteLength pre ->
  Forall isLabel ls ->
  st_nameSize s + labelBytes ls <= 255 ->
  while_loop (body cursor w) (length ls + k) s
  = while_loop (body cursor w) k
      {| st_labels := st_labels s ++ ls;
         st_offset := st_offset s + byteLength (wire ls);
         st_bytesConsumed := st_offset s + byteLength (wire ls);
         st_nameSize := st_nameSize s + labelBytes ls;
         st_encounteredPointer := false;
         st_dataView := w |}.
Proof.
  induction ls as [|l ls IH]; intros pre rest s k Hdv Hep Hbc Hw Hoff Hall Hsize.
  - simpl. destruct s; simpl in *. subst. f_equal. f_equal.
    + symmetry. apply app_nil_r.
    + change (byteLength []) with 0. lia.
    + change (byteLength []) with 0. lia.
    + lia.
  - apply Forall_cons_iff in Hall. destruct Hall as [Hl Hls].
    pose proof (Label_length Hl) as Hlen.
    pose proof (labelBytes_nonneg ls) as Hnn.
    simpl labelBytes in Hsize.
    simpl length. simpl Nat.add. rewrite while_loop_S.
    rewrite body_at_label with (pre := pre) (l := l) (rest := wire ls ++ rest);
      [ | assumption
        | rewrite Hw, wire_cons, <- app_assoc; reflexivity
        | assumption | lia ].
    unfold decodeLabel. rewrite Hl.
    replace (st_nameSize s + byteLength l >? 255) with false
      by (symmetry; lia).
    rewrite Hep.
    rewrite IH with (pre := pre ++ toUint8 (byteLength l) :: l) (rest := rest);
      [ | assumption | reflexivity | reflexivity
        | rewrite Hw, wire_cons, <- !app_assoc; reflexivity
        | simpl; rewrite Hoff, byteLength_app, byteLength_cons; lia
        | assumption
        | simpl; lia ].
    cbn [st_labels st_offset st_nameSize st_bytesConsumed]. simpl labelBytes.
    f_equal. f_equal.
    + rewrite <- app_assoc. reflexivity.
    + rewrite wire_cons, byteLength_app, byteLength_cons. lia.
    + rewrite wire_cons, byteLength_app, byteLength_cons. lia.
    + lia.
Qed.

(** A literal name at the cursor, read by the transformation. *)
Lemma decode_literal pre ls rest :
  Forall isLabel ls -> ls <> [] -> byteLength (wire ls) + 1 <= 255 ->
  NameFromDnsPacketCursor.decode
    {| cursor_uint8Array := pre ++ wire ls ++ x00 :: rest;
       cursor_offset := byteLength pre |}
  = Some (Right {| labels := ls; encodedByteLength := byteLength (wire ls) |}).
Proof.
  intros Hall Hne Hle.
  pose proof (wire_length ls) as Hw. pose proof (labelBytes_nonneg ls) as Hnn.
  assert (Hlab : 1 <= labelBytes ls).
  { destruct ls as [|l ls']; [congruence|].
    apply Forall_cons_iff in Hall. destruct Hall as [Hl _].
    apply Label_length in Hl. simpl.
    pose proof (labelBytes_nonneg ls'). lia. }
  set (cursor := {| cursor_uint8Array := pre ++ wire ls ++ x00 :: rest;
                    cursor_offset := byteLength pre |}).
  assert (Hwin : exists rest',
             window cursor = wire ls ++ x00 :: rest').
  { unfold cursor. rewrite window_at.
    replace (wire ls ++ x00 :: rest) with ((wire ls ++ [x00]) ++ rest)
      by (rewrite <- app_assoc; reflexivity).
    rewrite firstn_app, firstn_all2
      by (rewrite length_app; unfold byteLength in *; simpl; lia).
    rewrite <- app_assoc. eexists. reflexivity. }
  destruct Hwin as [rest' Hwin].
  unfold NameFromDnsPacketCursor.decode. cbv zeta.
  assert (Hsize : byteLength (window cursor)
                  = byteLength (wire ls) + 1 + byteLength rest').
  { rewrite Hwin, byteLength_app, byteLength_cons. lia. }
  pose proof (byteLength_nonneg rest').
  replace (byteLength (window cursor) <? 2) with false by (symmetry; lia).
  replace (fuel cursor)
    with (length ls + S (length (window cursor)
                         + length (cursor_uint8Array cursor) + 2 - length ls))%nat.
  2:{ unfold fuel. unfold byteLength in *. lia. }
  rewrite run_window_labels with (pre := []) (rest := x00 :: rest');
    [ | reflexivity | reflexivity | reflexivity | assumption | reflexivity
      | assumption | simpl; lia ].
  rewrite while_loop_S.
  rewrite CursorLoop.body_ends
    by (simpl; rewrite Hwin; apply getUint8_app).
  reflexivity.
Qed.

End CursorCases.

(** X13. On a name written literally in the packet, the packet-aware decoder
    does what the standalone decoder does, at any cursor offset: when the
    bytes at the cursor are one or more [Label]s, each after its length byte,
    then a zero byte, within 255 bytes in all, it returns those labels and
    the offset of the zero byte relative to the cursor, whatever precedes and
    follows the name in the packet. *)
Theorem decodeNameFromDnsPacketCursor_literal pre ls rest :
  Forall isLabel ls -> ls <> [] -> byteLength (wire ls) + 1 <= 255 ->
  decodeNameFromDnsPacketCursor
    {| cursor_uint8Array := pre ++ wire ls ++ x00 :: rest;
       cursor_offset := byteLength pre |}
  = Some (Right {| labels := ls; encodedByteLength := byteLength (wire ls) |})
  /\ decodeNameFromUint8Array (wire ls ++ x00 :: rest)
     = Some (Right {| labels := ls;
                      encodedByteLength := byteLength (wire ls) |}).
Proof.
  intros Hall Hne Hle.
  assert (Hval : Name_validate
                   {| labels := ls; encodedByteLength := byteLength (wire ls) |}
                 = Right {| labels := ls;
                            encodedByteLength := byteLength (wire ls) |}).
  { apply Name_validate_Right. simpl. repeat split; auto; try lia.
    pose proof (wire_length ls) as Hw.
    pose proof (labelBytes_nonneg ls).
    destruct ls; [congruence|]. simpl length in Hw. lia. }
  split.
  - unfold decodeNameFromDnsPacketCursor.
    rewrite CursorCases.decode_literal by assumption.
    simpl andThen. now rewrite Hval.
  - now apply decode_wire_then.
Qed.

Lemma decodeNameFromDnsPacketCursor_literal_witness :
  decodeNameFromDnsPacketCursor
    {| cursor_uint8Array :=
         ofList [9; 9; 9] ++ wire [ofList [97]] ++ x00 :: ofList [192; 0];
       cursor_offset := byteLength (ofList [9; 9; 9]) |}
  = Some (Right {| labels := [ofList [97]];
                   encodedByteLength := byteLength (wire [ofList [97]]) |}).
Proof.
  apply (@decodeNameFromDnsPacketCursor_literal
           (ofList [9; 9; 9]) [ofList [97]] (ofList [192; 0])).
  - apply Forall_cons; [vm_compute; reflexivity | apply Forall_nil].
  - discriminate.
  - vm_compute. discriminate.
Defined.

Module CursorShape.
Import NameFromDnsPacketCursor.

Lemma shape_init cursor : shape cursor (init cursor).
Proof.
  exists O, (window cursor). simpl. repeat split; auto.
Qed.

Lemma firstn_snoc_le {A} k (l : list A) x :
  (k <= length l)%nat -> firstn k (l ++ [x]) = firstn k l.
Proof.
  intros Hk. rewrite firstn_app.
  replace (k - length l)%nat with O by lia. simpl. apply app_nil_r.
Qed.

Lemma wire_snoc ls b (mid : Uint8Array) :
  u8 b = byteLength mid ->
  wire (ls ++ @cons Uint8Array mid (@nil Uint8Array)) = wire ls ++ b :: mid.
Proof.
  intros Hb. rewrite wire_app. simpl. rewrite app_nil_r, <- Hb, toUint8_u8.
  reflexivity.
Qed.

Lemma shape_step cursor s s' :
  shape cursor s ->
  body cursor (window cursor) s = Continue s' ->
  shape cursor s'.
Proof.
  intros (k & rest & Hk & Hwin & Hall & Hcase) Hstep.
  apply CursorCases.body_inv in Hstep.
  destruct Hstep as [(byte & v & Hget & Hptr & Hep & ->)
                    |(len & Hget & Hptr & Hlen & Hfit & Hlabel & ->)].
  - rewrite Hep in Hcase. destruct Hcase as (-> & Hoff & Hbc & Hdv).
    rewrite firstn_all in Hwin.
    rewrite Hdv, Hoff, Hwin in Hget.
    pose proof (getUint8_Right _ _ Hget) as [Hin _].
    rewrite byteLength_app in Hin.
    destruct rest as [|b rest'];
      [change (byteLength []) with 0 in Hin; lia|].
    rewrite getUint8_app in Hget. inversion Hget as [Hb].
    exists (length (st_labels s)), (b :: rest').
    cbn [st_labels st_encounteredPointer st_bytesConsumed].
    rewrite firstn_all. repeat split; auto.
    + exists b, rest'. split; [reflexivity|]. now rewrite Hb.
    + lia.
  - destruct (st_encounteredPointer s) eqn:Hep.
    + destruct Hcase as [Hrest Hbc].
      exists k, rest.
      cbn [st_labels st_encounteredPointer st_bytesConsumed].
      rewrite firstn_snoc_le by assumption.
      repeat split; auto.
      * rewrite length_app. simpl. lia.
      * apply Forall_app. split; auto.
    + destruct Hcase as (-> & Hoff & Hbc & Hdv).
      rewrite firstn_all in Hwin.
      rewrite Hdv in *. rewrite Hoff in *.
      assert (Hrest : 1 + len <= byteLength rest).
      { rewrite Hwin, byteLength_app in Hfit. lia. }
      destruct rest as [|b rest];
        [change (byteLength []) with 0 in Hrest; lia|].
      rewrite byteLength_cons in Hrest.
      assert (Hb : u8 b = len).
      { rewrite Hwin, getUint8_app in Hget. now inversion Hget. }
      destruct (ArrayLoop.cut_prefix rest (n := len))
        as (mid & rest' & -> & Hmid); [lia|].
      assert (Hsub : subarray (window cursor)
                       (byteLength (wire (st_labels s)) + 1)
                       (byteLength (wire (st_labels s)) + 1 + len) = mid).
      { rewrite Hwin.
        replace (wire (st_labels s) ++ b :: mid ++ rest')
          with ((wire (st_labels s) ++ [b]) ++ mid ++ rest')
          by (rewrite <- app_assoc; reflexivity).
        replace (byteLength (wire (st_labels s)) + 1)
          with (byteLength (wire (st_labels s) ++ [b]))
          by (rewrite byteLength_app; reflexivity).
        rewrite <- Hmid. apply subarray_app. }
      rewrite Hsub in *.
      exists (length (st_labels s ++ [mid])), rest'.
      cbn [st_labels st_encounteredPointer st_bytesConsumed st_offset
             st_dataView].
      rewrite firstn_all.
      pose proof (@wire_snoc (st_labels s) b mid ltac:(lia)) as Hsnoc.
      unfold Label, Uint8Array in *. rewrite Hsnoc.
      repeat split; auto.
      * rewrite Hwin, <- app_assoc. reflexivity.
      * apply Forall_app. split; auto.
      * rewrite byteLength_app, byteLength_cons. lia.
Qed.

Lemma body_Break cursor w s r :
  body cursor w s = Break r ->
  r = s /\ getUint8 (st_dataView s) (st_offset s) = Right 0.
Proof.
  unfold body.
  destruct (getUint8 (st_dataView s) (st_offset s)) as [e|byte];
    [discriminate|].
  destruct (byteIsPointer byte).
  - destruct (st_encounteredPointer s); [discriminate|].
    destruct (getUint16 _ _); discriminate.
  - destruct (byte =? 0) eqn:Hz.
    + intros H. inversion H. apply Z.eqb_eq in Hz. now subst.
    + destruct (_ >? byteLength (st_dataView s)); [discriminate|].
      destruct (decodeLabel _); [discriminate|].
      destruct (_ >? 255); discriminate.
Qed.

(** Where a successful decode stopped counting. *)
Lemma decode_shape cursor n :
  NameFromDnsPacketCursor.decode cursor = Some (Right n) ->
  Forall isLabel (labels n)
  /\ exists (k : nat) b rest,
      (k <= length (labels n))%nat
      /\ window cursor = wire (firstn k (labels n)) ++ b :: rest
      /\ ((b = x00 /\ k = length (labels n)
           /\ encodedByteLength n = byteLength (wire (labels n)))
          \/ (byteIsPointer (u8 b) = true
              /\ encodedByteLength n
                 = byteLength (wire (firstn k (labels n))) + 2)).
Proof.
  unfold NameFromDnsPacketCursor.decode. cbv zeta.
  destruct (_ <? 2); [discriminate|].
  intros H. apply andThen_Right in H. destruct H as (s & Hloop & Hn).
  inversion Hn; subst n; clear Hn. simpl.
  apply while_loop_invariant with (P := shape cursor) in Hloop;
    [ | intros; eapply shape_step; eauto | apply shape_init ].
  destruct Hloop as (s' & (k & rest & Hk & Hwin & Hall & Hcase) & Hbreak).
  apply body_Break in Hbreak. destruct Hbreak as [-> Hget].
  split; [assumption|].
  destruct (st_encounteredPointer s') eqn:Hep.
  - destruct Hcase as [(b & rest' & -> & Hptr) Hbc].
    exists k, b, rest'. auto.
  - destruct Hcase as (-> & Hoff & Hbc & Hdv).
    rewrite firstn_all in *.
    rewrite Hdv, Hoff, Hwin in Hget.
    pose proof (getUint8_Right _ _ Hget) as [Hin _].
    rewrite byteLength_app in Hin.
    destruct rest as [|b rest'];
      [change (byteLength []) with 0 in Hin; lia|].
    rewrite getUint8_app in Hget. inversion Hget as [Hb].
    exists (length (st_labels s')), b, rest'.
    rewrite firstn_all. repeat split; auto.
    left. repeat split; [|lia].
    rewrite <- (toUint8_u8 b), Hb. reflexivity.
Qed.

End CursorShape.

(** X14. Whenever the packet-aware decoder succeeds, the [encodedByteLength]
    it returns is the distance from the cursor to the zero byte that ended a
    name read literally, or to the first compression pointer plus 2: the
    window starts with the literal form of the first [k] labels, and then
    comes that zero byte (all the labels were literal) or that pointer.  The
    labels reached through the pointer never count. *)
Theorem decodeNameFromDnsPacketCursor_encodedByteLength cursor n :
  decodeNameFromDnsPacketCursor cursor = Some (Right n) ->
  exists (k : nat) b rest,
    (k <= length (labels n))%nat
    /\ NameFromDnsPacketCursor.window cursor
       = wire (firstn k (labels n)) ++ b :: rest
    /\ ((b = x00 /\ k = length (labels n)
         /\ encodedByteLength n = byteLength (wire (labels n)))
        \/ (byteIsPointer (u8 b) = true
            /\ encodedByteLength n
               = byteLength (wire (firstn k (labels n))) + 2)).
Proof.
  intros H. apply decodeNameFromDnsPacketCursor_Right in H.
  destruct H as [H _]. now apply CursorShape.decode_shape in H.
Qed.

Lemma decodeNameFromDnsPacketCursor_encodedByteLength_witness :
  exists (k : nat) b rest,
    (k <= 1)%nat
    /\ ofList [1; 97; 0] = wire (firstn k [ofList [97]]) ++ b :: rest
    /\ ((b = x00 /\ k = 1%nat /\ 2 = byteLength (wire [ofList [97]]))
        \/ (byteIsPointer (u8 b) = true
            /\ 2 = byteLength (wire (firstn k [ofList [97]])) + 2)).
Proof.
  apply (@decodeNameFromDnsPacketCursor_encodedByteLength
           {| cursor_uint8Array := ofList [1; 97; 0]; cursor_offset := 0 |}
           {| labels := [ofList [97]]; encodedByteLength := 2 |}).
  reflexivity.
Defined.

(** X15. When the bytes at the cursor start with a compression pointer and
    the packet-aware decoder succeeds, the [encodedByteLength] it returns is
    exactly 2. *)
Theorem decodeNameFromDnsPacketCursor_pointer_length cursor b0 rest0 n :
  NameFromDnsPacketCursor.window cursor = b0 :: rest0 ->
  byteIsPointer (u8 b0) = true ->
  decodeNameFromDnsPacketCursor cursor = Some (Right n) ->
  encodedByteLength n = 2.
Proof.
  intros Hw Hptr H. apply decodeNameFromDnsPacketCursor_Right in H.
  destruct H as [H _]. apply CursorShape.decode_shape in H.
  destruct H as (Hall & k & b & rest & Hk & Hwin & Hcase).
  rewrite Hw in Hwin.
  destruct k as [|k].
  - simpl in Hwin. inversion Hwin; subst b rest.
    destruct Hcase as [(-> & _) | (_ & Hebl)].
    + discriminate.
    + exact Hebl.
  - exfalso. destruct (labels n) as [|l ls]; [simpl in Hk; lia|].
    apply Forall_cons_iff in Hall. destruct Hall as [Hl _].
    apply Label_length in Hl.
    simpl in Hwin. injection Hwin as Hb0 _.
    rewrite Hb0, byteIsPointer_u8, u8_toUint8 in Hptr by lia. lia.
Qed.

Lemma decodeNameFromDnsPacketCursor_pointer_length_witness :
  encodedByteLength {| labels := [ofList [97]]; encodedByteLength := 2 |} = 2.
Proof.
  apply (@decodeNameFromDnsPacketCursor_pointer_length
           {| cursor_uint8Array := ofList [192; 2; 1; 97; 0];
              cursor_offset := 0 |}
           (toUint8 192) (ofList [2; 1; 97; 0])
           {| labels := [ofList [97]]; encodedByteLength := 2 |});
    reflexivity.
Defined.

(** X16. A compression pointer at the cursor whose offset lies at or past
    the end of the packet makes the packet-aware decoder fail with
    [BufferUnderrun] at that offset; nothing outside the packet is read. *)
Theorem decodeNameFromDnsPacketCursor_pointer_outside cursor b0 b1 rest :
  NameFromDnsPacketCursor.window cursor = b0 :: b1 :: rest ->
  byteIsPointer (u8 b0) = true ->
  byteLength (cursor_uint8Array cursor)
  <= getPointerOffset (u8 b0 * 256 + u8 b1) ->
  decodeNameFromDnsPacketCursor cursor
  = Some (Left (BufferUnderrun (getPointerOffset (u8 b0 * 256 + u8 b1)))).
Proof.
  intros Hw Hp0 Hout.
  unfold decodeNameFromDnsPacketCursor, NameFromDnsPacketCursor.decode.
  rewrite Hw. rewrite !byteLength_cons.
  pose proof (byteLength_nonneg rest).
  replace (1 + (1 + byteLength rest) <? 2) with false by (symmetry; lia).
  rewrite <- Hw.
  replace (NameFromDnsPacketCursor.fuel cursor)
    with (2 + (length (NameFromDnsPacketCursor.window cursor)
               + length (cursor_uint8Array cursor) + 1))%nat
    by (unfold NameFromDnsPacketCursor.fuel; lia).
  rewrite while_loop_more
    with (r := Left (BufferUnderrun
                       (getPointerOffset (u8 b0 * 256 + u8 b1))));
    [reflexivity|].
  assert (Hu8 : getUint8 (b0 :: b1 :: rest) 0 = Right (u8 b0)) by reflexivity.
  assert (Hu16 : getUint16 (b0 :: b1 :: rest) 0 = Right (u8 b0 * 256 + u8 b1)).
  { unfold getUint16. rewrite Hu8. simpl bind.
    change (b0 :: b1 :: rest) with ([b0] ++ b1 :: rest).
    change (0 + 1) with (byteLength [b0]).
    now rewrite getUint8_app. }
  rewrite while_loop_S.
  rewrite CursorLoop.body_follow
    with (byte := u8 b0) (pointerAndOffset := u8 b0 * 256 + u8 b1);
    [ | reflexivity
      | simpl; unfold viewOf; rewrite Hw; exact Hu8
      | exact Hp0
      | simpl; unfold viewOf; rewrite Hw; exact Hu16 ].
  rewrite while_loop_S.
  unfold NameFromDnsPacketCursor.body at 1.
  cbn [NameFromDnsPacketCursor.st_dataView NameFromDnsPacketCursor.st_offset].
  unfold viewOf. rewrite CursorCases.getUint8_outside by assumption.
  reflexivity.
Qed.

Lemma decodeNameFromDnsPacketCursor_pointer_outside_witness :
  decodeNameFromDnsPacketCursor
    {| cursor_uint8Array := ofList [192; 9; 0]; cursor_offset := 0 |}
  = Some (Left (BufferUnderrun
                  (getPointerOffset (u8 (toUint8 192) * 256 + u8 (toUint8 9))))).
Proof.
  apply (@decodeNameFromDnsPacketCursor_pointer_outside
           {| cursor_uint8Array := ofList [192; 9; 0]; cursor_offset := 0 |}
           (toUint8 192) (toUint8 9) (ofList [0])).
  - reflexivity.
  - reflexivity.
  - vm_compute. discriminate.
Defined.

(** X17. With fewer than two bytes left in the packet at the cursor, the
    packet-aware decoder fails with [BufferTooShort], reporting how many
    bytes were left, before it reads any of them. *)
Theorem decodeNameFromDnsPacketCursor_too_short cursor :
  0 <= cursor_offset cursor ->
  byteLength (cursor_uint8Array cursor) - cursor_offset cursor < 2 ->
  decodeNameFromDnsPacketCursor cursor
  = Some (Left (BufferTooShort
                  (Z.max 0 (byteLength (cursor_uint8Array cursor)
                            - cursor_offset cursor)))).
Proof.
  intros Hoff Hleft.
  unfold decodeNameFromDnsPacketCursor, NameFromDnsPacketCursor.decode.
  cbv zeta. rewrite CursorCases.window_size by assumption.
  replace (Z.min 255 (byteLength (cursor_uint8Array cursor)
                      - cursor_offset cursor))
    with (byteLength (cursor_uint8Array cursor) - cursor_offset cursor)
    by lia.
  now replace (Z.max 0 (byteLength (cursor_uint8Array cursor)
                        - cursor_offset cursor) <? 2)
    with true by (symmetry; lia).
Qed.

Lemma decodeNameFromDnsPacketCursor_too_short_witness :
  decodeNameFromDnsPacketCursor
    {| cursor_uint8Array := ofList [1; 97; 0]; cursor_offset := 2 |}
  = Some (Left (BufferTooShort (Z.max 0 (byteLength (ofList [1; 97; 0]) - 2)))).
Proof.
  apply (@decodeNameFromDnsPacketCursor_too_short
           {| cursor_uint8Array := ofList [1; 97; 0]; cursor_offset := 2 |}).
  - vm_compute. discriminate.
  - vm_compute. reflexivity.
Defined.

Lemma encodeNameFromUint8Array_Right N bytes :
  encodeNameFromUint8Array N = Right bytes ->
  Name_validate N = Right N /\ bytes = wire (labels N) ++ [x00].
Proof.
  intros H.
  assert (Hval : Name_validate N = Right N).
  { unfold encodeNameFromUint8Array in H.
    destruct (Name_validate N) as [e|n'] eqn:Hv; [discriminate|].
    f_equal. apply Name_validate_Right in Hv. tauto. }
  split; [assumption|].
  unfold encodeNameFromUint8Array in H. rewrite Hval in H. simpl bind in H.
  apply Name_validate_Right in Hval.
  destruct Hval as (_ & Hall & Hne & Hle & _).
  rewrite Encoder.encode_ok in H by assumption. now inversion H.
Qed.

(** X18. What the encoder emits can be placed anywhere in a packet: the
    packet-aware decoder, with its cursor at the first emitted byte, returns
    the labels of the encoded name and an [encodedByteLength] of one less
    than the number of emitted bytes, whatever precedes and follows them. *)
Theorem decodeNameFromDnsPacketCursor_of_encoded N bytes pre rest :
  encodeNameFromUint8Array N = Right bytes ->
  decodeNameFromDnsPacketCursor
    {| cursor_uint8Array := pre ++ bytes ++ rest;
       cursor_offset := byteLength pre |}
  = Some (Right {| labels := labels N;
                   encodedByteLength := byteLength bytes - 1 |}).
Proof.
  intros H. apply encodeNameFromUint8Array_Right in H.
  destruct H as [Hval ->].
  apply Name_validate_Right in Hval.
  destruct Hval as (_ & Hall & Hne & Hle & _).
  rewrite <- app_assoc. simpl app.
  unfold decodeNameFromDnsPacketCursor.
  rewrite CursorCases.decode_literal by assumption.
  simpl andThen. f_equal.
  rewrite byteLength_app. change (byteLength [x00]) with 1.
  replace (byteLength (wire (labels N)) + 1 - 1)
    with (byteLength (wire (labels N))) by lia.
  apply Name_validate_Right. simpl. repeat split; auto; try lia.
  pose proof (wire_length (labels N)) as Hw.
  pose proof (labelBytes_nonneg (labels N)).
  destruct (labels N); [congruence|]. simpl length in Hw. lia.
Qed.

Lemma decodeNameFromDnsPacketCursor_of_encoded_witness :
  decodeNameFromDnsPacketCursor
    {| cursor_uint8Array := ofList [7; 7] ++ ofList [1; 97; 0] ++ ofList [192];
       cursor_offset := byteLength (ofList [7; 7]) |}
  = Some (Right {| labels := [ofList [97]];
                   encodedByteLength := byteLength (ofList [1; 97; 0]) - 1 |}).
Proof.
  apply (@decodeNameFromDnsPacketCursor_of_encoded
           {| labels := [ofList [97]]; encodedByteLength := 9 |}
           (ofList [1; 97; 0]) (ofList [7; 7]) (ofList [192])).
  reflexivity.
Defined.

(** ** The framer, case by case *)

Module FramerCases.
Import Message.

Lemma subarray_from_zero u e :
  0 <= e -> subarray u 0 e = firstn (Z.to_nat e) u.
Proof.
  intros He. unfold subarray, relativeIndex.
  pose proof (byteLength_nonneg u).
  change (0 <? 0) with false. replace (e <? 0) with false by (symmetry; lia).
  cbv iota. rewrite (Z.min_l 0) by lia. rewrite Z.sub_0_r.
  change (Z.to_nat 0) with O. simpl skipn.
  destruct (Z_le_gt_dec e (byteLength u)).
  - now rewrite Z.min_l by lia.
  - rewrite Z.min_r by lia.
    rewrite !firstn_all2; [reflexivity | |]; unfold byteLength in *; lia.
Qed.

Lemma section_complete A (decodeElement : DnsPacketCursor -> ParseResult (A * Z))
    cursor new cursor' :
  walks decodeElement (fun len => len + 1) cursor new cursor' ->
  forall elements,
    section decodeElement (length new) elements cursor
    = Right (elements ++ new, cursor').
Proof.
  induction 1 as [c|c x len xs c' Hdec Hwalk IH]; intros elements; simpl.
  - now rewrite app_nil_r.
  - rewrite Hdec. simpl. rewrite IH, <- app_assoc. reflexivity.
Qed.

Lemma section_fails A (decodeElement : DnsPacketCursor -> ParseResult (A * Z))
    cursor done cursor' issue :
  walks decodeElement (fun len => len + 1) cursor done cursor' ->
  decodeElement cursor' = Left issue ->
  forall n elements,
    (length done < n)%nat ->
    section decodeElement n elements cursor = Left issue.
Proof.
  induction 1 as [c|c x len xs c' Hdec Hwalk IH]; intros Hfail n elements Hn.
  - destruct n; [simpl in Hn; lia|]. simpl. now rewrite Hfail.
  - destruct n; [simpl in Hn; lia|]. simpl. rewrite Hdec. simpl.
    apply IH; auto. simpl in Hn. lia.
Qed.

End FramerCases.

(** X19. The framer succeeds whenever its parts do: if the header decoder
    accepts the first 12 bytes of the packet and, from offset 12 on, the
    questions, answers, authority records and additional records can be
    decoded one after the other, each at the offset where the one before
    ended plus its reported length plus one, as many of each as the header
    counts, then the framer returns exactly that header and those four
    sequences, in order. *)
Theorem framer_succeeds
    (Header Question ResourceRecord : Type)
    (qdcount ancount nscount arcount : Header -> Z)
    (decodeHeader : Uint8Array -> ParseResult Header)
    (decodeQuestion : DnsPacketCursor -> ParseResult (Question * Z))
    (decodeResourceRecord : DnsPacketCursor -> ParseResult (ResourceRecord * Z))
    (uint8Array : Uint8Array) (header : Header)
    (qs : list Question) (an ns ar : list ResourceRecord)
    (c1 c2 c3 c4 : DnsPacketCursor) :
  decodeHeader (firstn 12 uint8Array) = Right header ->
  Message.walks decodeQuestion (fun len => len + 1)
    {| cursor_uint8Array := uint8Array; cursor_offset := 12 |} qs c1 ->
  length qs = Z.to_nat (qdcount header) ->
  Message.walks decodeResourceRecord (fun len => len + 1) c1 an c2 ->
  length an = Z.to_nat (ancount header) ->
  Message.walks decodeResourceRecord (fun len => len + 1) c2 ns c3 ->
  length ns = Z.to_nat (nscount header) ->
  Message.walks decodeResourceRecord (fun len => len + 1) c3 ar c4 ->
  length ar = Z.to_nat (arcount header) ->
  Message.decode qdcount ancount nscount arcount
    decodeHeader decodeQuestion decodeResourceRecord uint8Array
  = Right {| Message.header := header; Message.question := qs;
             Message.answer := an; Message.authority := ns;
             Message.additional := ar |}.
Proof.
  intros Hh Hq Hql Ha Hal Hn Hnl Hr Hrl.
  unfold Message.decode, Message.decode_run.
  cbn [Message.fromUint8Array cursor_offset].
  rewrite FramerCases.subarray_from_zero by (unfold Message.HEADER_BYTE_LENGTH; lia).
  change (Z.to_nat Message.HEADER_BYTE_LENGTH) with 12%nat.
  rewrite Hh. cbn [bind].
  rewrite <- Hql, <- Hal, <- Hnl, <- Hrl.
  change (Message.advance
            {| cursor_uint8Array := uint8Array; cursor_offset := 0 |}
            Message.HEADER_BYTE_LENGTH)
    with {| cursor_uint8Array := uint8Array; cursor_offset := 12 |}.
  rewrite (FramerCases.section_complete Hq). cbn [bind snd fst app].
  rewrite (FramerCases.section_complete Ha). cbn [bind snd fst app].
  rewrite (FramerCases.section_complete Hn). cbn [bind snd fst app].
  rewrite (FramerCases.section_complete Hr). cbn [bind snd fst app].
  reflexivity.
Qed.

Lemma framer_succeeds_witness :
  @Message.decode unit Z Z
    (fun _ => 2) (fun _ => 0) (fun _ => 0) (fun _ => 0)
    (fun _ => Right tt)
    (fun cursor => Right (cursor_offset cursor, 5))
    (fun cursor => Right (cursor_offset cursor, 5))
    []
  = Right {| Message.header := tt; Message.question := [12; 18];
             Message.answer := []; Message.authority := [];
             Message.additional := [] |}.
Proof.
  apply (@framer_succeeds unit Z Z
           (fun _ => 2) (fun _ => 0) (fun _ => 0) (fun _ => 0)
           (fun _ => Right tt)
           (fun cursor => Right (cursor_offset cursor, 5))
           (fun cursor => Right (cursor_offset cursor, 5))
           [] tt [12; 18] [] [] []
           {| cursor_uint8Array := []; cursor_offset := 24 |}
           {| cursor_uint8Array := []; cursor_offset := 24 |}
           {| cursor_uint8Array := []; cursor_offset := 24 |}
           {| cursor_uint8Array := []; cursor_offset := 24 |});
    try reflexivity; try apply Message.walks_nil.
  eapply Message.walks_cons; [reflexivity|].
  eapply Message.walks_cons; [reflexivity|].
  apply Message.walks_nil.
Defined.

(** X20. The framer is all-or-nothing and reports the first failure: when
    the header decoder rejects the first 12 bytes, or when some question
    (after fewer questions than the header counts), or some answer (after all
    the questions and fewer answers than the header counts), fails to decode
    at the offset the cursor has reached, the framer fails with that very
    issue and returns no message. *)
Theorem framer_fails_with_first_issue
    (Header Question ResourceRecord : Type)
    (qdcount ancount nscount arcount : Header -> Z)
    (decodeHeader : Uint8Array -> ParseResult Header)
    (decodeQuestion : DnsPacketCursor -> ParseResult (Question * Z))
    (decodeResourceRecord : DnsPacketCursor -> ParseResult (ResourceRecord * Z))
    (uint8Array : Uint8Array) (issue : ParseIssue) :
  (decodeHeader (firstn 12 uint8Array) = Left issue ->
   Message.decode qdcount ancount nscount arcount
     decodeHeader decodeQuestion decodeResourceRecord uint8Array
   = Left issue)
  /\ (forall header qs c,
         decodeHeader (firstn 12 uint8Array) = Right header ->
         Message.walks decodeQuestion (fun len => len + 1)
           {| cursor_uint8Array := uint8Array; cursor_offset := 12 |} qs c ->
         (length qs < Z.to_nat (qdcount header))%nat ->
         decodeQuestion c = Left issue ->
         Message.decode qdcount ancount nscount arcount
           decodeHeader decodeQuestion decodeResourceRecord uint8Array
         = Left issue)
  /\ (forall header qs c1 an c,
         decodeHeader (firstn 12 uint8Array) = Right header ->
         Message.walks decodeQuestion (fun len => len + 1)
           {| cursor_uint8Array := uint8Array; cursor_offset := 12 |} qs c1 ->
         length qs = Z.to_nat (qdcount header) ->
         Message.walks decodeResourceRecord (fun len => len + 1) c1 an c ->
         (length an < Z.to_nat (ancount header))%nat ->
         decodeResourceRecord c = Left issue ->
         Message.decode qdcount ancount nscount arcount
           decodeHeader decodeQuestion decodeResourceRecord uint8Array
         = Left issue).
Proof.
  assert (Hsub : subarray uint8Array 0 Message.HEADER_BYTE_LENGTH
                 = firstn 12 uint8Array).
  { rewrite FramerCases.subarray_from_zero
      by (unfold Message.HEADER_BYTE_LENGTH; lia).
    reflexivity. }
  split; [|split].
  - intros Hh. unfold Message.decode, Message.decode_run.
    cbn [Message.fromUint8Array cursor_offset]. rewrite Hsub, Hh.
    reflexivity.
  - intros header qs c Hh Hq Hlt Hfail.
    unfold Message.decode, Message.decode_run.
    cbn [Message.fromUint8Array cursor_offset]. rewrite Hsub, Hh.
    cbn [bind].
    change (Message.advance
              {| cursor_uint8Array := uint8Array; cursor_offset := 0 |}
              Message.HEADER_BYTE_LENGTH)
      with {| cursor_uint8Array := uint8Array; cursor_offset := 12 |}.
    rewrite (FramerCases.section_fails Hq Hfail) by assumption.
    reflexivity.
  - intros header qs c1 an c Hh Hq Hql Ha Hlt Hfail.
    unfold Message.decode, Message.decode_run.
    cbn [Message.fromUint8Array cursor_offset]. rewrite Hsub, Hh.
    cbn [bind].
    change (Message.advance
              {| cursor_uint8Array := uint8Array; cursor_offset := 0 |}
              Message.HEADER_BYTE_LENGTH)
      with {| cursor_uint8Array := uint8Array; cursor_offset := 12 |}.
    rewrite <- Hql.
    rewrite (FramerCases.section_complete Hq). cbn [bind snd fst app].
    rewrite (FramerCases.section_fails Ha Hfail) by assumption.
    reflexivity.
Qed.

Lemma framer_fails_with_first_issue_witness :
  @Message.decode unit Z Z
    (fun _ => 2) (fun _ => 0) (fun _ => 0) (fun _ => 0)
    (fun _ => Right tt)
    (fun cursor =>
       if cursor_offset cursor =? 12 then Right (12, 5)
       else Left (BufferUnderrun (cursor_offset cursor)))
    (fun cursor => Right (cursor_offset cursor, 5))
    []
  = Left (BufferUnderrun 18).
Proof.
  apply (proj1 (proj2 (@framer_fails_with_first_issue unit Z Z
           (fun _ => 2) (fun _ => 0) (fun _ => 0) (fun _ => 0)
           (fun _ => Right tt)
           (fun cursor =>
              if cursor_offset cursor =? 12 then Right (12, 5)
              else Left (BufferUnderrun (cursor_offset cursor)))
           (fun cursor => Right (cursor_offset cursor, 5))
           [] (BufferUnderrun 18)))
           tt [12] {| cursor_uint8Array := []; cursor_offset := 18 |}).
  - reflexivity.
  - eapply Message.walks_cons; [reflexivity|]. apply Message.walks_nil.
  - simpl. lia.
  - reflexivity.
Defined.

(** ** Encodings are unambiguous *)

(** X21. Two names that encode to the same bytes have the same labels: the
    encoding determines the label sequence (only [encodedByteLength], which
    the encoder ignores, may differ). *)
Theorem encodeNameFromUint8Array_injective N1 N2 bytes :
  encodeNameFromUint8Array N1 = Right bytes ->
  encodeNameFromUint8Array N2 = Right bytes ->
  labels N1 = labels N2.
Proof.
  intros H1 H2.
  apply encodeNameFromUint8Array_Right in H1, H2.
  destruct H1 as [Hv1 Hb1]. destruct H2 as [Hv2 Hb2].
  apply Name_validate_Right in Hv1, Hv2.
  destruct Hv1 as (_ & Hall1 & Hne1 & Hle1 & _).
  destruct Hv2 as (_ & Hall2 & Hne2 & Hle2 & _).
  pose proof (decode_wire Hall1 Hne1 Hle1) as D1.
  pose proof (decode_wire Hall2 Hne2 Hle2) as D2.
  rewrite <- Hb1 in D1. rewrite <- Hb2 in D2.
  rewrite D1 in D2. now inversion D2.
Qed.

Lemma encodeNameFromUint8Array_injective_witness :
  labels {| labels := [ofList [97]]; encodedByteLength := 2 |}
  = labels {| labels := [ofList [97]]; encodedByteLength := 9 |}.
Proof.
  apply (@encodeNameFromUint8Array_injective
           {| labels := [ofList [97]]; encodedByteLength := 2 |}
           {| labels := [ofList [97]]; encodedByteLength := 9 |}
           (ofList [1; 97; 0]));
    reflexivity.
Defined.
